(** * turf-www: scripts/create-config.js

    A shallow embedding of the build script that turns the documentation
    metadata of the Turf packages into the configuration file of the
    website, and the properties of its normalisation functions.

    Strings are byte strings ([String.string]); JavaScript values that the
    script builds or inspects dynamically are terms of [value]; a thrown
    exception (always a [TypeError] here) is the [Throw] outcome of the
    [result] monad. *)

From Stdlib Require Import List String Ascii Bool ZArith Lia Arith.
From Stdlib Require Import Sorted Permutation DecimalString.
Import ListNotations.

Local Open Scope list_scope.
Local Open Scope string_scope.

(** ** Outcomes: a value or a thrown exception *)

Inductive result (A : Type) : Type :=
| Ok (a : A)
| Throw.

Arguments Ok {A} a.
Arguments Throw {A}.

Definition bind {A B : Type} (m : result A) (k : A -> result B) : result B :=
  match m with
  | Ok a => k a
  | Throw => Throw
  end.

Notation "x <- m ;; k" := (bind m (fun x => k))
  (at level 61, m at next level, right associativity).

(** [Array.prototype.map] with a callback that may throw: the elements are
    visited from left to right and the first exception ends the loop. *)
Definition mapM {A B : Type} (f : A -> result B) : list A -> result (list B) :=
  fix go (l : list A) : result (list B) :=
    match l with
    | [] => Ok []
    | a :: l' => b <- f a ;; bs <- go l' ;; Ok (b :: bs)
    end.

(** ** JavaScript values *)

#[local] Set Warnings "-register-all".

Inductive value : Type :=
| VUndefined
| VNull
| VBool (b : bool)
| VNum (n : Z)
| VStr (s : string)
| VArr (elements : list value)
| VObj (fields : list (string * value)).

(** An object is its list of own properties in insertion order, which is
    the order of [Object.keys] and of the JSON output for keys that are
    not array indices; no key is listed twice. *)
Definition object : Type := list (string * value).

Fixpoint lookup {A : Type} (k : string) (o : list (string * A)) : option A :=
  match o with
  | [] => None
  | (k', v) :: o' => if String.eqb k' k then Some v else lookup k o'
  end.

(** [o[k] = v]: an existing property keeps its place, a new one goes last. *)
Fixpoint set_field {A : Type} (k : string) (v : A) (o : list (string * A))
  : list (string * A) :=
  match o with
  | [] => [(k, v)]
  | (k', v') :: o' =>
      if String.eqb k' k then (k', v) :: o' else (k', v') :: set_field k v o'
  end.

(** [delete o[k]] *)
Fixpoint delete_field {A : Type} (k : string) (o : list (string * A))
  : list (string * A) :=
  match o with
  | [] => []
  | (k', v') :: o' =>
      if String.eqb k' k then delete_field k o' else (k', v') :: delete_field k o'
  end.

(** ToBoolean *)
Definition truthy (v : value) : bool :=
  match v with
  | VUndefined | VNull => false
  | VBool b => b
  | VNum n => negb (Z.eqb n 0)
  | VStr s => negb (String.eqb s "")
  | VArr _ | VObj _ => true
  end.

(** [v.k] for a property name [k] that is not an array index.  Reading a
    property of [undefined] or [null] throws; primitives have no own
    property but the [length] of a string. *)
Definition get (v : value) (k : string) : result value :=
  match v with
  | VUndefined | VNull => Throw
  | VBool _ | VNum _ => Ok VUndefined
  | VStr s =>
      if String.eqb k "length" then Ok (VNum (Z.of_nat (String.length s)))
      else Ok VUndefined
  | VArr l =>
      if String.eqb k "length" then Ok (VNum (Z.of_nat (List.length l)))
      else Ok VUndefined
  | VObj o =>
      match lookup k o with
      | Some x => Ok x
      | None => Ok VUndefined
      end
  end.

(** ** Strings *)

Definition quote : string := String (ascii_of_nat 34) EmptyString.
Definition newline : string := String (ascii_of_nat 10) EmptyString.
Definition backslash : string := String (ascii_of_nat 92) EmptyString.

Fixpoint drop (n : nat) (s : string) : string :=
  match n, s with
  | O, _ => s
  | S _, EmptyString => EmptyString
  | S n', String _ s' => drop n' s'
  end.

(** [s.replace(pat, rep)] for a string pattern [pat] and a replacement free
    of [$]: only the first occurrence of [pat] is replaced. *)
Fixpoint replace (pat rep s : string) : string :=
  if String.prefix pat s then rep ++ drop (String.length pat) s
  else
    match s with
    | EmptyString => EmptyString
    | String c s' => String c (replace pat rep s')
    end.

(** [s.split(pat)[0]] where [pat] matches exactly the non-empty text [pat]:
    the part of [s] before the first occurrence of [pat], all of [s] when
    there is none. *)
Fixpoint split_head (pat s : string) : string :=
  if String.prefix pat s then EmptyString
  else
    match s with
    | EmptyString => EmptyString
    | String c s' => String c (split_head pat s')
    end.

Fixpoint indexOf_from (pat s : string) (i : Z) : Z :=
  if String.prefix pat s then i
  else
    match s with
    | EmptyString => (-1)%Z
    | String _ s' => indexOf_from pat s' (i + 1)%Z
    end.

(** [s.indexOf(pat)] *)
Definition indexOf (pat s : string) : Z := indexOf_from pat s 0.

Definition upper_ascii (c : ascii) : ascii :=
  let n := nat_of_ascii c in
  if andb (Nat.leb 97 n) (Nat.leb n 122) then ascii_of_nat (n - 32) else c.

(** [s.toUpperCase()] for a string of ASCII characters: the letters a-z
    become A-Z.  Other bytes are left alone, whereas the script's
    [toUpperCase] maps every cased letter of Unicode; what is stated of a
    lookup by name is therefore stated for ASCII names and keys. *)
Fixpoint toUpperCase (s : string) : string :=
  match s with
  | EmptyString => EmptyString
  | String c s' => String (upper_ascii c) (toUpperCase s')
  end.

Definition string_of_Z (n : Z) : string := NilZero.string_of_int (Z.to_int n).

Fixpoint join_strings (sep : string) (l : list string) : string :=
  match l with
  | [] => EmptyString
  | [s] => s
  | s :: l' => s ++ sep ++ join_strings sep l'
  end.

(** ToString, as applied by [+] with a string operand; inside
    [Array.prototype.join] the elements [undefined] and [null] give the
    empty string instead. *)
Fixpoint to_string (v : value) : string :=
  match v with
  | VUndefined => "undefined"
  | VNull => "null"
  | VBool true => "true"
  | VBool false => "false"
  | VNum n => string_of_Z n
  | VStr s => s
  | VArr l =>
      join_strings ","
        (List.map (fun x => match x with
                            | VUndefined | VNull => EmptyString
                            | _ => to_string x
                            end) l)
  | VObj _ => "[object Object]"
  end.

Definition join_item (v : value) : string :=
  match v with
  | VUndefined | VNull => EmptyString
  | _ => to_string v
  end.

(** [l.join(sep)] *)
Definition join (sep : string) (l : list value) : string :=
  join_strings sep (List.map join_item l).

(** ** The manifest's [paths] table *)

(** [Object.keys(docs.paths).forEach(name => {
      docs.paths[name.toUpperCase()] = docs.paths[name] })]:
    the keys are listed once, before the loop, and every step reads and
    writes the table as the previous steps left it. *)
Definition upperCasePaths (paths : object) : object :=
  fold_left
    (fun (acc : object) (name : string) =>
       match lookup name acc with
       | Some v => set_field (toUpperCase name) v acc
       | None => set_field (toUpperCase name) VUndefined acc
       end)
    (List.map fst paths) paths.

(** [docs.paths[name.toUpperCase()] || null]; [name.toUpperCase()] throws
    unless [name] is a string.  An upper-case key names no property that
    the table inherits, so only its own properties are looked up. *)
Definition getLink (paths : object) (name : value) : result value :=
  match name with
  | VStr s =>
      match lookup (toUpperCase s) paths with
      | Some v => if truthy v then Ok v else Ok VNull
      | None => Ok VNull
      end
  | _ => Throw
  end.

Definition is_null (v : value) : bool :=
  match v with
  | VNull => true
  | _ => false
  end.

Definition anchor (link text : value) : string :=
  "<a target=" ++ quote ++ "_blank" ++ quote ++ " href=" ++ quote
    ++ to_string link ++ quote ++ ">" ++ to_string text ++ "</a>".

Definition createLink (paths : object) (name : value) (addLink : bool)
  : result value :=
  link <- getLink paths name ;;
  if orb (negb addLink) (is_null link) then Ok name
  else Ok (VStr (anchor link name)).

(** ** Type expressions *)

(** A node of a JSDoc type expression, with the properties the script
    reads: [type], [name], [elements], [expression] and [applications].
    A property that the node does not have is [VUndefined] or [None]. *)
Inductive TypeNode : Type :=
  mkTypeNode (type name : value)
             (elements : option (list TypeNode))
             (expression : option TypeNode)
             (applications : option (list TypeNode)).

Definition node_type (n : TypeNode) : value :=
  let 'mkTypeNode t _ _ _ _ := n in t.
Definition node_name (n : TypeNode) : value :=
  let 'mkTypeNode _ x _ _ _ := n in x.
Definition node_elements (n : TypeNode) : option (list TypeNode) :=
  let 'mkTypeNode _ _ e _ _ := n in e.
Definition node_expression (n : TypeNode) : option TypeNode :=
  let 'mkTypeNode _ _ _ e _ := n in e.
Definition node_applications (n : TypeNode) : option (list TypeNode) :=
  let 'mkTypeNode _ _ _ _ a := n in a.

Definition NameExpression (name : string) : TypeNode :=
  mkTypeNode (VStr "NameExpression") (VStr name) None None None.
Definition UnionType (elements : list TypeNode) : TypeNode :=
  mkTypeNode (VStr "UnionType") VUndefined (Some elements) None None.
Definition OptionalType (expression : TypeNode) : TypeNode :=
  mkTypeNode (VStr "OptionalType") VUndefined None (Some expression) None.
Definition TypeApplication (expression : TypeNode) (applications : list TypeNode)
  : TypeNode :=
  mkTypeNode (VStr "TypeApplication") VUndefined None (Some expression)
    (Some applications).

(** [inNode.type === tag] *)
Definition type_is (tag : string) (t : value) : bool :=
  match t with
  | VStr s => String.eqb s tag
  | _ => false
  end.

(** [typeof t === 'object'] *)
Definition typeof_object (t : value) : bool :=
  match t with
  | VNull | VArr _ | VObj _ => true
  | _ => false
  end.

(** [inNode.expression.name] *)
Definition expression_name (expression : option TypeNode) : result value :=
  match expression with
  | Some e => Ok (node_name e)
  | None => Throw
  end.

(** The body of [getType] for a node that is present. *)
Fixpoint getTypeNode (paths : object) (addLink : bool) (inNode : TypeNode)
  {struct inNode} : result value :=
  let 'mkTypeNode type name elements expression applications := inNode in
  if type_is "UnionType" type then
    match elements with
    | Some els =>
        parts <- mapM (getTypeNode paths addLink) els ;;
        Ok (VStr ("(" ++ join " | " parts ++ ")"))
    | None => Throw
    end
  else if type_is "OptionalType" type then
    n <- expression_name expression ;;
    Ok (VStr ("Optional: " ++ to_string n))
  else if typeof_object type then createLink paths name addLink
  else if type_is "NameExpression" type then createLink paths name addLink
  else if type_is "TypeApplication" type then
    n <- expression_name expression ;;
    match applications with
    | Some apps =>
        parts <-
          mapM (fun node =>
                  let 'mkTypeNode type1 name1 elements1 _ _ := node in
                  if type_is "UnionType" type1 then
                    match elements1 with
                    | Some els =>
                        parts2 <- mapM (getTypeNode paths addLink) els ;;
                        Ok (VStr ("(" ++ join " | " parts2 ++ ")"))
                    | None => Throw
                    end
                  else if type_is "TypeApplication" type1 then
                    getTypeNode paths addLink node
                  else createLink paths name1 addLink) apps ;;
        Ok (VStr (to_string n ++ " <" ++ to_string (VArr parts) ++ ">"))
    | None => Throw
    end
  else Ok VUndefined.

Definition getType (paths : object) (inNode : option TypeNode) (addLink : bool)
  : result value :=
  match inNode with
  | None => Ok (VBool false)
  | Some n => getTypeNode paths addLink n
  end.

(** ** Documentation metadata *)

(** The metadata is the JSON that [documentation.formats.json] produces,
    with the properties that the script reads.  A description is a
    Markdown tree: a root whose [children] are blocks, a block whose
    [children], when it has any, are inline nodes.  Every entry,
    parameter and property carries its [description]; a tag without text
    is a description without children, and an extractor that leaves the
    property out is outside these records. *)

Record Leaf : Type := mkLeaf {
  leaf_value : value
}.

Record Inline : Type := mkInline {
  inline_children : option (list Leaf);
  inline_value : value;
  inline_url : value;
  inline_jsdoc : bool
}.

Record Block : Type := mkBlock {
  block_children : option (list Inline)
}.

Record Description : Type := mkDescription {
  children : list Block
}.

Record Example : Type := mkExample {
  example_description : string
}.

(** An entry of [metadata.returns] or [metadata.throws]. *)
Record Tag : Type := mkTag {
  tag_type : option TypeNode;
  tag_description : Description
}.

(** An entry of [param.properties]; [prop_default] is [prop.default]. *)
Record Property : Type := mkProperty {
  prop_name : string;
  prop_type : option TypeNode;
  prop_default : option string;
  prop_description : Description
}.

Record Param : Type := mkParam {
  param_name : string;
  param_type : option TypeNode;
  param_description : Description;
  lineNumber : Z;
  properties : option (list Property)
}.

Record Metadata : Type := mkMetadata {
  name : string;
  description : Description;
  examples : list Example;
  returns : option (list Tag);
  throws : option (list Tag);
  params : option (list Param)
}.

(** ** Normalisation of one metadata entry *)

Section Normalizer.

(** [docs.paths], after its keys were duplicated in upper case. *)
Variable paths : object.

(** The callback of [inNode.map] in [concatTags]. *)
Definition concatTag (addLink : bool) (node : Inline) : result value :=
  match inline_children node with
  | Some cs =>
      match cs with
      | [] => Throw
      | c :: _ =>
          if negb addLink then Ok (leaf_value c)
          else
            link <- getLink paths (leaf_value c) ;;
            let link :=
              if orb (is_null link) (negb (inline_jsdoc node))
              then inline_url node else link in
            Ok (VStr (anchor link (leaf_value c)))
      end
  | None => Ok (inline_value node)
  end.

Definition concatTags (inNode : option (list Inline)) (addLink : bool)
  : result value :=
  match inNode with
  | None => Ok (VBool false)
  | Some nodes =>
      outDescr <- mapM (concatTag addLink) nodes ;;
      let outDescr := replace " ." "." (join " " outDescr) in
      if String.eqb outDescr "Optional parameters"
      then Ok (VStr (outDescr ++ ": see below"))
      else Ok (VStr outDescr)
  end.

(** [d.children[0].children]: reading [children] of a first block that
    does not exist throws. *)
Definition first_block_children (d : Description)
  : result (option (list Inline)) :=
  match children d with
  | [] => Throw
  | b :: _ => Ok (block_children b)
  end.

Definition getDescription (metadata : Metadata) : result value :=
  inNode <- first_block_children (description metadata) ;;
  concatTags inNode true.

Definition addToMap_regexp : string := newline ++ "//addToMap".

Definition getSnippet (metadata : Metadata) : value :=
  match examples metadata with
  | example :: _ => VStr (split_head addToMap_regexp (example_description example))
  | [] => VBool false
  end.

Definition getExample (metadata : Metadata) : value :=
  match examples metadata with
  | example :: _ => VStr (example_description example)
  | [] => VBool false
  end.

Definition hasMap (metadata : Metadata) : value :=
  match examples metadata with
  | example :: _ =>
      VBool (negb (Z.eqb (indexOf "//addToMap" (example_description example)) (-1)))
  | [] => VBool false
  end.

(** The callback shared by [getReturns] and [getThrows]. *)
Definition getResult (entry : Tag) : result value :=
  match children (tag_description entry) with
  | [] => Ok (VBool false)
  | b :: _ =>
      type <- getType paths (tag_type entry) false ;;
      desc <- concatTags (block_children b) false ;;
      Ok (VObj [("type", type); ("desc", desc)])
  end.

Definition getReturns (metadata : Metadata) : result value :=
  match returns metadata with
  | None => Ok (VBool false)
  | Some rs => out <- mapM getResult rs ;; Ok (VArr out)
  end.

Definition getThrows (metadata : Metadata) : result value :=
  match throws metadata with
  | None => Ok (VBool false)
  | Some rs => out <- mapM getResult rs ;; Ok (VArr out)
  end.

(** [v.k] on a value that is neither [undefined] nor [null], where the
    read cannot throw: the elements of the arrays built below are objects
    or [false]. *)
Definition property (v : value) (k : string) : value :=
  match get v k with
  | Ok x => x
  | Throw => VUndefined
  end.

(** ToNumber, on the operands that [a._lineNum - b._lineNum] meets here:
    a number, or [undefined] for an element without the property, which
    gives NaN ([None]). *)
Definition to_number (v : value) : option Z :=
  match v with
  | VNum n => Some n
  | VNull => Some 0%Z
  | VBool b => Some (if b then 1%Z else 0%Z)
  | _ => None
  end.

(** [a - b]; NaN when an operand is NaN. *)
Definition minus (a b : value) : option Z :=
  match to_number a, to_number b with
  | Some x, Some y => Some (x - y)%Z
  | _, _ => None
  end.

(** [order > 0], false for NaN. *)
Definition positive (order : option Z) : bool :=
  match order with
  | Some z => Z.ltb 0 z
  | None => false
  end.

(** [Array.prototype.sort(comparefn)] is the insertion sort that V8 ran
    on a short array up to Node 10; with a comparator that orders the
    elements every sort of the engine gives the same array, and with one
    that answers NaN later versions of V8 may order otherwise:
    [for (i = 1; i < n; i++) { element = a[i];
       for (j = i - 1; j >= 0; j--) { tmp = a[j];
         if (comparefn(tmp, element) > 0) a[j + 1] = tmp; else break }
       a[j + 1] = element }].
    [insert_element] runs the inner loop on the sorted prefix, given last
    element first. *)
Fixpoint insert_element {A : Type} (comparefn : A -> A -> option Z)
  (element : A) (prefix_rev : list A) : list A :=
  match prefix_rev with
  | [] => [element]
  | tmp :: rest =>
      if positive (comparefn tmp element)
      then tmp :: insert_element comparefn element rest
      else element :: prefix_rev
  end.

Definition sort {A : Type} (comparefn : A -> A -> option Z) (a : list A)
  : list A :=
  rev (fold_left (fun prefix_rev element =>
                    insert_element comparefn element prefix_rev) a []).

(** The callback of [metadata.params.map] in [getParams]. *)
Definition getParam (param : Param) : result value :=
  match param_type param with
  | None => Ok (VObj [("type", VNull)])
  | Some _ =>
      match children (param_description param) with
      | [] => Ok (VBool false)
      | b :: _ =>
          type <- getType paths (param_type param) true ;;
          desc <- concatTags (block_children b) false ;;
          Ok (VObj [("Argument", VStr (param_name param));
                    ("Type", type);
                    ("Description", desc);
                    ("_lineNum", VNum (lineNumber param))])
      end
  end.

Definition compare_lineNum (a b : value) : option Z :=
  minus (property a "_lineNum") (property b "_lineNum").

(** [delete param._lineNum] *)
Definition delete_lineNum (param : value) : value :=
  match param with
  | VObj o => VObj (delete_field "_lineNum" o)
  | _ => param
  end.

Definition getParams (metadata : Metadata) : result value :=
  match params metadata with
  | None => Ok (VBool false)
  | Some ps =>
      outParams <- mapM getParam ps ;;
      let outParams :=
        filter (fun param => negb (is_null (property param "type"))) outParams in
      let finalOut := sort compare_lineNum outParams in
      Ok (VArr (List.map delete_lineNum finalOut))
  end.

(** The callback of [options[0].properties.map] in [getOptions]. *)
Definition getOption (prop : Property) : result value :=
  let defaultVal :=
    match prop_default prop with
    | Some d =>
        if truthy (VStr d) then VStr (replace backslash "" d) else VNull
    | None => VNull
    end in
  type <- getType paths (prop_type prop) false ;;
  inNode <- first_block_children (prop_description prop) ;;
  desc <- concatTags inNode false ;;
  Ok (VObj [("Prop", VStr (replace "options." "" (prop_name prop)));
            ("Type", type);
            ("Default", defaultVal);
            ("Description", desc)]).

Definition getOptions (metadata : Metadata) : result value :=
  match params metadata with
  | None => Ok (VBool false)
  | Some ps =>
      match filter (fun p => String.eqb (param_name p) "options") ps with
      | [] => Ok VNull
      | options0 :: _ =>
          match properties options0 with
          | None => Throw
          | Some props => out <- mapM getOption props ;; Ok (VArr out)
          end
      end
  end.

End Normalizer.

(** ** The output tree and the manifest loader *)

(** An element of the [modules] array: [{ group, modules }]. *)
Record ModuleGroup : Type := mkGroup {
  group : value;
  modules : list value
}.

Definition store : Type := list ModuleGroup.

(** [modules[modules.length - 1].modules.push(entry)]; with no group yet,
    [modules[-1]] is [undefined] and reading its [modules] throws. *)
Fixpoint push_module (entry : value) (st : store) : result store :=
  match st with
  | [] => Throw
  | [g] => Ok [mkGroup (group g) (modules g ++ [entry])]
  | g :: rest => rest' <- push_module entry rest ;; Ok (g :: rest')
  end.

(** The callback of [docs.toc.forEach]. *)
Definition tocStep (st : store) (tocItem : value) : result store :=
  n <- get tocItem "name" ;;
  if truthy n then Ok (st ++ [mkGroup n []])%list
  else push_module (VObj [("name", tocItem); ("hidden", VBool false)]) st.

Fixpoint forEachM {A S : Type} (f : S -> A -> result S) (l : list A) (s : S)
  : result S :=
  match l with
  | [] => Ok s
  | a :: l' => s' <- f s a ;; forEachM f l' s'
  end.

Definition loadToc (toc : list value) : result store :=
  forEachM tocStep toc [].

(** [entry.name === moduleName] *)
Definition name_is (moduleName : string) (entry : value) : bool :=
  match property entry "name" with
  | VStr s => String.eqb s moduleName
  | _ => false
  end.

Fixpoint find_from {A : Type} (p : A -> bool) (l : list A) (i : nat)
  : option (nat * A) :=
  match l with
  | [] => None
  | a :: l' => if p a then Some (i, a) else find_from p l' (S i)
  end.

Fixpoint getModuleObj_from (st : store) (moduleName : string) (i : nat)
  : option (nat * nat * value) :=
  match st with
  | [] => None
  | g :: rest =>
      match find_from (name_is moduleName) (modules g) 0 with
      | Some (i2, entry) => Some (i, i2, entry)
      | None => getModuleObj_from rest moduleName (S i)
      end
  end.

(** [getModuleObj] returns a reference into the tree: the indices [i] and
    [i2] of the entry found, with the entry itself. *)
Definition getModuleObj (st : store) (moduleName : string)
  : option (nat * nat * value) :=
  getModuleObj_from st moduleName 0.

Fixpoint update_nth {A : Type} (i : nat) (f : A -> A) (l : list A) : list A :=
  match l, i with
  | [], _ => []
  | a :: l', O => f a :: l'
  | a :: l', S i' => a :: update_nth i' f l'
  end.

(** The tree after the object at [modules[i].modules[i2]] became [entry]. *)
Definition write_entry (i i2 : nat) (entry : value) (st : store) : store :=
  update_nth i
    (fun g => mkGroup (group g) (update_nth i2 (fun _ => entry) (modules g))) st.

(** [moduleObj[k] = v] *)
Definition assign (moduleObj : value) (k : string) (v : value) : value :=
  match moduleObj with
  | VObj o => VObj (set_field k v o)
  | _ => moduleObj
  end.

Section Run.

Variable paths : object.

(** The assignments to [moduleObj] in the callback of [docs.forEach]. *)
Definition fillModuleObj (npmName : string) (parent : value)
  (metadata : Metadata) (moduleObj : value) : result value :=
  let moduleObj := assign moduleObj "parent" parent in
  d <- getDescription paths metadata ;;
  let moduleObj := assign moduleObj "description" d in
  let moduleObj := assign moduleObj "snippet" (getSnippet metadata) in
  let moduleObj := assign moduleObj "example" (getExample metadata) in
  let moduleObj := assign moduleObj "hasMap" (hasMap metadata) in
  let moduleObj := assign moduleObj "npmName" (VStr npmName) in
  r <- getReturns paths metadata ;;
  let moduleObj := assign moduleObj "returns" r in
  p <- getParams paths metadata ;;
  let moduleObj := assign moduleObj "params" p in
  o <- getOptions paths metadata ;;
  let moduleObj := assign moduleObj "options" o in
  t <- getThrows paths metadata ;;
  Ok (assign moduleObj "throws" t).

(** The callback of [docs.forEach]. *)
Definition normalize (npmName : string) (parent : value) (st : store)
  (metadata : Metadata) : result store :=
  match getModuleObj st (name metadata) with
  | Some (i, i2, moduleObj) =>
      moduleObj' <- fillModuleObj npmName parent metadata moduleObj ;;
      Ok (write_entry i i2 moduleObj' st)
  | None => Ok st
  end.

(** What the extractor does for one package: [documentation.build]
    rejects, or resolves with [undefined] (and [console.warning], which is
    no function, throws), or [documentation.formats.json] rejects, or the
    JSON of the metadata entries arrives. *)
Inductive Extraction : Type :=
| BuildRejected
| BuildUndefined
| JsonRejected
| Extracted (docs : list Metadata).

Record Package : Type := mkPackage {
  pckg_name : string;
  extraction : Extraction
}.

(** What the process leaves behind: the lines on the console, and the
    configuration written, if any. *)
Record Effects : Type := mkEffects {
  console : list string;
  written : option store
}.

Definition parent_of (pckg : Package) (docs : list Metadata) : value :=
  if Nat.ltb 1 (List.length docs) then VStr (pckg_name pckg) else VNull.

(** The queue of concurrency 1: a task starts when the one before it has
    called [callback]; a task that never calls it leaves the queue
    waiting, and [awaitAll] fires once every task has called back. *)
Fixpoint runQueue (packages : list Package) (st : store) (out : list string)
  : Effects :=
  match packages with
  | [] => mkEffects (out ++ ["Saved Config:"])%list (Some st)
  | pckg :: rest =>
      let line := "Parsing Docs: " ++ pckg_name pckg in
      let out := (out ++ [line])%list in
      match extraction pckg with
      | Extracted docs =>
          match forEachM (normalize (pckg_name pckg) (parent_of pckg docs))
                  docs st with
          | Ok st' => runQueue rest st' out
          | Throw => mkEffects out None
          end
      | _ => mkEffects out None
      end
  end.

End Run.

(** [documentation.yml]: the [toc] sequence and the [paths] table. *)
Record Manifest : Type := mkManifest {
  manifest_toc : list value;
  manifest_paths : object
}.

(** The whole script.  The promise callbacks of the first task run after
    the synchronous part, so every call of [getLink] sees the table with
    its upper-case keys. *)
Definition main (docs : Manifest) (packages : list Package) : result Effects :=
  st <- loadToc (manifest_toc docs) ;;
  Ok (runQueue (upperCasePaths (manifest_paths docs)) packages st []).

(** ** Vocabulary of the statements *)

(** [pat] occurs in [s]. *)
Definition occurs (pat s : string) : Prop :=
  exists pre post, s = pre ++ pat ++ post.

(** [s] is [pre ++ pat ++ post] and no occurrence of [pat] in [s] starts
    further to the left. *)
Definition first_at (pat s pre post : string) : Prop :=
  s = pre ++ pat ++ post /\
  forall pre' post', s = pre' ++ pat ++ post' ->
                     String.length pre <= String.length pre'.

(** [r] is [s] with its first occurrence of [pat], if any, replaced by
    [rep]. *)
Definition replaced_first (pat rep s r : string) : Prop :=
  (exists pre post, first_at pat s pre post /\ r = pre ++ rep ++ post) \/
  (~ occurs pat s /\ r = s).

(** [r] is the part of [s] before its first occurrence of [pat], all of
    [s] when there is none. *)
Definition cut_before_first (pat s r : string) : Prop :=
  (exists post, first_at pat s r post) \/ (~ occurs pat s /\ r = s).

(** A trailing " ." of [s] becomes "."; nothing else changes. *)
Fixpoint collapse_trailing (s : string) : string :=
  match s with
  | EmptyString => EmptyString
  | String c s' =>
      if String.eqb s " ." then "." else String c (collapse_trailing s')
  end.

(** The description in the words of the specification: the fragments
    joined with single spaces, a trailing " ." collapsed into ".", and
    ": see below" after the phrase "Optional parameters". *)
Definition description_as_specified (fragments : list string) : string :=
  let s := collapse_trailing (join_strings " " fragments) in
  if String.eqb s "Optional parameters" then s ++ ": see below" else s.

(** The address that a link node of a description points to: the
    manifest's entry for its text when the node is a JSDoc link and the
    entry exists, the node's own [url] otherwise. *)
Definition link_target (paths : object) (node : Inline) (text : string) : value :=
  match lookup (toUpperCase text) paths with
  | Some v => if andb (truthy v) (inline_jsdoc node) then v else inline_url node
  | None => inline_url node
  end.

(** The fragment that a node contributes to a description rendered with
    links: its text, or a hyperlink around the text of its first child. *)
Inductive fragment (paths : object) : Inline -> string -> Prop :=
| fragment_text (node : Inline) (v : string) :
    inline_children node = None ->
    inline_value node = VStr v ->
    fragment paths node v
| fragment_link (node : Inline) (c : Leaf) (cs : list Leaf) (text : string) :
    inline_children node = Some (c :: cs) ->
    leaf_value c = VStr text ->
    fragment paths node (anchor (link_target paths node text) (VStr text)).

(** ** Sample inputs *)

Definition text_node (s : string) : Inline :=
  mkInline None (VStr s) VUndefined false.

Definition link_node (text : string) (url : value) (jsdoc : bool) : Inline :=
  mkInline (Some [mkLeaf (VStr text)]) VUndefined url jsdoc.

Definition paragraph (nodes : list Inline) : Description :=
  mkDescription [mkBlock (Some nodes)].

Definition described (d : Description) : Metadata :=
  mkMetadata "buffer" d [] None None None.

Definition two_sentences : Metadata :=
  described (paragraph [text_node "Buffers a feature ."; text_node "Units are kilometers ."]).

Definition optional_parameters : Metadata :=
  described (paragraph [text_node "Optional"; text_node "parameters"]).

Definition with_example (text : string) : Metadata :=
  mkMetadata "buffer" (paragraph []) [mkExample text] None None None.

Definition foo_addToMap_bar : string :=
  "foo" ++ newline ++ "//addToMap" ++ newline ++ "bar".


(** ** Rows of the tables *)

(** The element of [returns] or [throws] that an entry gives: [false] for
    an entry without descriptive text, a record of its rendered type and
    text otherwise. *)
Definition result_row (paths : object) (entry : Tag) (row : value) : Prop :=
  match children (tag_description entry) with
  | [] => row = VBool false
  | b :: _ =>
      exists type desc,
        getType paths (tag_type entry) false = Ok type /\
        concatTags paths (block_children b) false = Ok desc /\
        row = VObj [("type", type); ("desc", desc)]
  end.

Definition result_renders (paths : object) (entry : Tag) : Prop :=
  exists row, result_row paths entry row.

(** The [Default] of a property: [null] without a default, the default
    less its first backslash otherwise. *)
Definition default_value (d : option string) (v : value) : Prop :=
  match d with
  | None => v = VNull
  | Some s =>
      if String.eqb s "" then v = VNull
      else exists r, replaced_first backslash "" s r /\ v = VStr r
  end.

(** The row of the options table that a documented property gives. *)
Definition option_row (paths : object) (prop : Property) (row : value) : Prop :=
  exists b bs type desc stripped dflt,
    children (prop_description prop) = b :: bs /\
    getType paths (prop_type prop) false = Ok type /\
    concatTags paths (block_children b) false = Ok desc /\
    replaced_first "options." "" (prop_name prop) stripped /\
    (forall rest, prop_name prop = "options." ++ rest -> stripped = rest) /\
    default_value (prop_default prop) dflt /\
    row = VObj [("Prop", VStr stripped); ("Type", type);
                ("Default", dflt); ("Description", desc)].

Definition option_renders (paths : object) (prop : Property) : Prop :=
  exists row, option_row paths prop row.

Definition is_options (p : Param) : bool := String.eqb (param_name p) "options".

Definition with_results (rs ts : option (list Tag)) : Metadata :=
  mkMetadata "buffer" (paragraph []) [] rs ts None.

Definition number_result : Tag :=
  mkTag (Some (NameExpression "number")) (paragraph [text_node "the area"]).

Definition bare_result : Tag :=
  mkTag (Some (NameExpression "Error")) (mkDescription []).

Definition with_params (ps : option (list Param)) : Metadata :=
  mkMetadata "buffer" (paragraph []) [] None None ps.

Definition units_property : Property :=
  mkProperty "options.units" (Some (NameExpression "string"))
    (Some "'kilometers'") (paragraph [text_node "units of the radius"]).

Definition options_param : Param :=
  mkParam "options" (Some (NameExpression "Object"))
    (paragraph [text_node "Optional parameters"]) 4 (Some [units_property]).


(** The record that [getParams] builds for a parameter that has a type
    and descriptive text, before the line number is deleted. *)
Definition param_record (paths : object) (param : Param) (v : value) : Prop :=
  exists b bs type desc,
    param_type param <> None /\
    children (param_description param) = b :: bs /\
    getType paths (param_type param) true = Ok type /\
    concatTags paths (block_children b) false = Ok desc /\
    v = VObj [("Argument", VStr (param_name param)); ("Type", type);
              ("Description", desc); ("_lineNum", VNum (lineNumber param))].

(** A parameter that gives no placeholder: it has no type, or it has
    descriptive text that renders. *)
Definition param_described (paths : object) (param : Param) : Prop :=
  param_type param = None \/ exists v, param_record paths param v.

Definition is_typed (p : Param) : bool :=
  match param_type p with
  | Some _ => true
  | None => false
  end.

(** The elements [a] and [b] carry line numbers, in ascending order. *)
Definition lineNum_le (a b : value) : Prop :=
  exists x y, property a "_lineNum" = VNum x /\
              property b "_lineNum" = VNum y /\ (x <= y)%Z.

Definition number_param (name : string) (line : Z) (d : Description) : Param :=
  mkParam name (Some (NameExpression "number")) d line None.

(** Three documented parameters in the order of the signature; the
    comment documents them in the opposite order, and gives [steps] a
    type and no text. *)
Definition unsorted_params : list Param :=
  [number_param "radius" 5 (paragraph [text_node "distance to draw"]);
   number_param "steps" 4 (mkDescription []);
   number_param "units" 3 (paragraph [text_node "unit of the radius"])].

Definition descending_by {A : Type} (key : A -> Z) (a b : A) : Prop :=
  (key b <= key a)%Z.

Definition ascending_by {A : Type} (key : A -> Z) (a b : A) : Prop :=
  (key a <= key b)%Z.

Definition lineNum_key (v : value) : Z :=
  match property v "_lineNum" with
  | VNum n => n
  | _ => 0%Z
  end.

Definition has_lineNum (v : value) : Prop :=
  exists n, property v "_lineNum" = VNum n.


(** The union of the named types [Number] and [Feature]. *)
Definition number_or_feature : TypeNode :=
  UnionType [NameExpression "Number"; NameExpression "Feature"].

(** One step of the loop in [upperCasePaths]. *)
Definition upperCaseKey (acc : object) (name : string) : object :=
  match lookup name acc with
  | Some v => set_field (toUpperCase name) v acc
  | None => set_field (toUpperCase name) VUndefined acc
  end.


(** ** The order of the manifest and of the output *)

(** What a position of the manifest's [toc] holds: the name of a group,
    or a module. *)
Inductive TocView : Type :=
| GroupMark (name : value)
| ModuleRef (item : value).

Definition toc_view (tocItem : value) : TocView :=
  if truthy (property tocItem "name") then GroupMark (property tocItem "name")
  else ModuleRef tocItem.

Definition order_of_toc (toc : list value) : list TocView :=
  List.map toc_view toc.

Definition group_view (g : ModuleGroup) : list TocView :=
  GroupMark (group g)
    :: List.map (fun entry => ModuleRef (property entry "name")) (modules g).

(** The groups of the tree in their order, each followed by the names of
    its modules in their order. *)
Definition order_of_store (st : store) : list TocView :=
  List.concat (List.map group_view st).

Definition present (v : value) : Prop := v <> VUndefined /\ v <> VNull.

(** A [toc] that the loader accepts: every item is a value with
    properties, and the first one, if any, starts a group. *)
Definition toc_loads (toc : list value) : Prop :=
  Forall present toc /\
  match toc with
  | [] => True
  | first :: _ => truthy (property first "name") = true
  end.

(** [modules[i].modules[i2]] *)
Definition entry_at (st : store) (i i2 : nat) : option value :=
  match nth_error st i with
  | Some g => nth_error (modules g) i2
  | None => None
  end.

(** The names of the metadata entries of all packages. *)
Definition metadata_names (packages : list Package) : list string :=
  List.flat_map
    (fun pckg =>
       match extraction pckg with
       | Extracted docs => List.map name docs
       | _ => []
       end) packages.

Definition unmatched (names : list string) (entry : value) : Prop :=
  forall n, In n names -> name_is n entry = false.

Definition placeholder (entry : value) : Prop :=
  exists item, entry = VObj [("name", item); ("hidden", VBool false)].

Definition extracted (pckg : Package) : Prop :=
  exists docs, extraction pckg = Extracted docs.

Definition parsing_line (pckg : Package) : string :=
  "Parsing Docs: " ++ pckg_name pckg.

(** A documentation comment that has tags and no description. *)
Definition undescribed : Metadata :=
  mkMetadata "buffer" (mkDescription []) [] (Some [bare_result]) None None.

Definition sample_manifest : Manifest :=
  mkManifest
    [VObj [("name", VStr "Transformation")]; VStr "buffer"; VStr "along"]
    [("Feature", VStr "http://geojson.org/Feature")].

Definition buffer_metadata : Metadata :=
  mkMetadata "buffer" (paragraph [text_node "Buffers a feature."]) []
    None None None.


Definition all_placeholders (st : store) : Prop :=
  Forall (fun g => Forall placeholder (modules g)) st.


Definition buffer_package (docs : list Metadata) : Package :=
  mkPackage "@turf/buffer" (Extracted docs).

Definition along_package : Package := mkPackage "@turf/along" BuildRejected.

Definition area_package : Package := mkPackage "@turf/area" (Extracted []).

(** Type expressions that [getType] renders whatever the table of links
    holds: names, unions of such expressions, optional types, and
    applications whose arguments are such expressions, none of them an
    optional type. *)
Inductive plain_type : TypeNode -> Prop :=
| plain_name (s : string) : plain_type (NameExpression s)
| plain_union (els : list TypeNode) :
    Forall plain_type els -> plain_type (UnionType els)
| plain_optional (e : TypeNode) : plain_type (OptionalType e)
| plain_application (e : TypeNode) (apps : list TypeNode) :
    Forall plain_type apps ->
    Forall (fun n => type_is "OptionalType" (node_type n) = false) apps ->
    plain_type (TypeApplication e apps).

Definition plain_optional_type (t : option TypeNode) : Prop :=
  match t with
  | None => True
  | Some n => plain_type n
  end.

(** Inline nodes that [concatTags] renders without links: none has an
    empty list of children. *)
Definition plain_nodes (inNode : option (list Inline)) : Prop :=
  match inNode with
  | None => True
  | Some nodes => Forall (fun node => inline_children node <> Some []) nodes
  end.

Definition plain_description (d : Description) : Prop :=
  match children d with
  | [] => True
  | b :: _ => plain_nodes (block_children b)
  end.


(** ** More vocabulary *)

(** A node that stops [concatTags]: its list of children is empty, or
    links are rendered and the text of its first child is no string. *)
Definition breaks_concatTags (addLink : bool) (node : Inline) : Prop :=
  match inline_children node with
  | Some [] => True
  | Some (c :: _) => addLink = true /\ forall s, leaf_value c <> VStr s
  | None => False
  end.

(** An argument of a type application that is neither a union nor an
    application and has no name, such as the [*] of [Array<*>]. *)
Definition nameless_argument (node : TypeNode) : Prop :=
  type_is "UnionType" (node_type node) = false /\
  type_is "TypeApplication" (node_type node) = false /\
  forall s, node_name node <> VStr s.

(** The text of a named type: a hyperlink around the name when links
    are asked for and the table has an address for it, the bare name
    otherwise. *)
Definition linked_name (paths : object) (addLink : bool) (n : string) : string :=
  match lookup (toUpperCase n) paths with
  | Some v => if andb (truthy v) addLink then anchor v (VStr n) else n
  | None => n
  end.

Definition array_of_anything : TypeNode :=
  TypeApplication (NameExpression "Array")
    [mkTypeNode (VStr "AllLiteral") VUndefined None None None].


(** A named type, as the Markdown of the packages has them. *)
Definition names (l : list string) : list TypeNode := List.map NameExpression l.


Definition option_all {A : Type} (P : A -> Prop) (o : option A) : Prop :=
  match o with
  | Some a => P a
  | None => True
  end.

(** The callback of [inNode.applications.map] in [getType]. *)
Definition getTypeArgument (paths : object) (addLink : bool) (node : TypeNode)
  : result value :=
  if orb (type_is "UnionType" (node_type node))
         (type_is "TypeApplication" (node_type node))
  then getTypeNode paths addLink node
  else createLink paths (node_name node) addLink.


(** [o[k] = v] for every pair of the list, from left to right. *)
Definition assign_all (kvs : list (string * value)) (o : object) : object :=
  fold_left (fun acc kv => set_field (fst kv) (snd kv) acc) kvs o.

(** The properties that the callback of [docs.forEach] assigns. *)
Definition filled_keys : list string :=
  ["parent"; "description"; "snippet"; "example"; "hasMap"; "npmName";
   "returns"; "params"; "options"; "throws"].

(** The values that the callback of [docs.forEach] assigns, in the order
    of the assignments. *)
Definition filled_fields (paths : object) (npmName : string) (parent : value)
  (metadata : Metadata) : result (list (string * value)) :=
  d <- getDescription paths metadata ;;
  r <- getReturns paths metadata ;;
  p <- getParams paths metadata ;;
  o <- getOptions paths metadata ;;
  t <- getThrows paths metadata ;;
  Ok [("parent", parent); ("description", d);
      ("snippet", getSnippet metadata); ("example", getExample metadata);
      ("hasMap", hasMap metadata); ("npmName", VStr npmName);
      ("returns", r); ("params", p); ("options", o); ("throws", t)].


(** The element of the array of [getParams] that a parameter with a
    type gives before the sort: [false] without descriptive text, its
    record otherwise. *)
Definition param_value (paths : object) (param : Param) (v : value) : Prop :=
  (children (param_description param) = [] /\ v = VBool false) \/
  param_record paths param v.


(** ** Documentation that the run accepts *)









(** The position [(i, i2)] comes before [(j, j2)] in the tree. *)
Definition before (i i2 j j2 : nat) : Prop := i < j \/ (i = j /\ i2 < j2).

(** ** Complete documentation *)

Definition is_string (v : value) : bool :=
  match v with
  | VStr _ => true
  | _ => false
  end.

(** A type expression that has every part [getType] reads: a union has
    its elements, all complete; an optional type has its expression; a
    name expression, or a node whose [type] is an object, has a name; an
    application has its expression and its arguments, of which the unions
    and the applications are complete and every other one has a name.
    A node of another kind is complete as it is. *)
Fixpoint complete_type (n : TypeNode) : bool :=
  let 'mkTypeNode type name elements expression applications := n in
  if type_is "UnionType" type then
    match elements with
    | Some els => forallb complete_type els
    | None => false
    end
  else if type_is "OptionalType" type then
    match expression with
    | Some _ => true
    | None => false
    end
  else if typeof_object type then is_string name
  else if type_is "NameExpression" type then is_string name
  else if type_is "TypeApplication" type then
    match expression, applications with
    | Some _, Some apps =>
        forallb (fun node =>
                   if orb (type_is "UnionType" (node_type node))
                          (type_is "TypeApplication" (node_type node))
                   then complete_type node
                   else is_string (node_name node)) apps
    | _, _ => false
    end
  else true.

Definition complete_optional_type (t : option TypeNode) : Prop :=
  match t with
  | None => True
  | Some n => complete_type n = true
  end.

(** A documented property: its type, if any, is complete, its
    description has a first block, and every node of that block that has
    children has a first child. *)
Definition documented_property (prop : Property) : Prop :=
  complete_optional_type (prop_type prop) /\
  children (prop_description prop) <> [] /\
  plain_description (prop_description prop).

(** A string of ASCII characters. *)
Fixpoint ascii_only (s : string) : bool :=
  match s with
  | EmptyString => true
  | String c s' => andb (Nat.ltb (nat_of_ascii c) 128) (ascii_only s')
  end.

Definition ascii_keys (paths : object) : Prop :=
  Forall (fun k => ascii_only k = true) (List.map fst paths).

Definition anything_result : Tag :=
  mkTag (Some array_of_anything) (paragraph [text_node "the features"]).




(** An entry of [returns] or [throws] that [getResult] accepts: it has no
    text, or its type, if any, is complete and every node of its first
    block that has children has a first child. *)
Definition complete_tag (entry : Tag) : Prop :=
  children (tag_description entry) = [] \/
  (complete_optional_type (tag_type entry) /\
   plain_description (tag_description entry)).


(** * Properties *)

(** ** Strings *)

Lemma prefix_app (p s : string) : String.prefix p (p ++ s) = true.
Proof.
  induction p as [|c p IH]; simpl.
  - now destruct s.
  - destruct (ascii_dec c c) as [_|n]; [exact IH | now elim n].
Qed.

Lemma prefix_decompose (p s : string) :
  String.prefix p s = true -> s = p ++ drop (String.length p) s.
Proof.
  revert s; induction p as [|c p IH]; intros s H.
  - reflexivity.
  - destruct s as [|d s]; simpl in H; [discriminate|].
    destruct (ascii_dec c d) as [->|]; [|discriminate].
    simpl. f_equal. now apply IH.
Qed.

Lemma drop_app (p s : string) : drop (String.length p) (p ++ s) = s.
Proof. induction p; simpl; auto. Qed.

Lemma append_nil_r (s : string) : s ++ "" = s.
Proof. induction s; simpl; congruence. Qed.

Lemma append_assoc (a b c : string) : (a ++ b) ++ c = a ++ b ++ c.
Proof. induction a; simpl; congruence. Qed.

Lemma prefix_occurs (pat s : string) :
  String.prefix pat s = true -> first_at pat s "" (drop (String.length pat) s).
Proof.
  intros H; split.
  - simpl. now apply prefix_decompose.
  - intros; simpl; lia.
Qed.

Lemma first_at_nil (pat s pre post : string) :
  String.prefix pat s = true -> first_at pat s pre post ->
  pre = "" /\ post = drop (String.length pat) s.
Proof.
  intros Hp [E Hmin].
  assert (Hl : String.length pre <= 0).
  { apply (Hmin "" (drop (String.length pat) s)). simpl.
    now apply prefix_decompose. }
  destruct pre; simpl in Hl; [|lia].
  split; [reflexivity|]. simpl in E. subst s. now rewrite drop_app.
Qed.

Lemma first_at_cons (pat s pre post : string) (c : ascii) :
  String.prefix pat (String c s) = false ->
  first_at pat (String c s) pre post ->
  exists pre', pre = String c pre' /\ first_at pat s pre' post.
Proof.
  intros Hp [E Hmin]. destruct pre as [|d pre]; simpl in E.
  - rewrite E, prefix_app in Hp. discriminate.
  - injection E as -> ->. exists pre. split; [reflexivity|]. split; [reflexivity|].
    intros pre' post' E'.
    specialize (Hmin (String d pre') post'). simpl in Hmin.
    rewrite E' in Hmin. specialize (Hmin eq_refl). lia.
Qed.

Lemma occurs_cons (pat s : string) (c : ascii) :
  String.prefix pat (String c s) = false ->
  occurs pat (String c s) -> occurs pat s.
Proof.
  intros Hp (pre & post & E). destruct pre as [|d pre]; simpl in E.
  - rewrite E, prefix_app in Hp. discriminate.
  - injection E as -> ->. now exists pre, post.
Qed.

Lemma occurs_nil (pat : string) :
  String.prefix pat "" = false -> ~ occurs pat "".
Proof.
  intros Hp (pre & post & E). destruct pre; [|discriminate].
  destruct pat; [discriminate|discriminate].
Qed.

Lemma replace_first_at (pat rep s pre post : string) :
  first_at pat s pre post -> replace pat rep s = pre ++ rep ++ post.
Proof.
  revert pre; induction s as [|c s IH]; intros pre H.
  - cbn [replace]. destruct (String.prefix pat "") eqn:Hp.
    + destruct (first_at_nil _ _ _ _ Hp H) as [-> ->]. reflexivity.
    + exfalso. apply (occurs_nil _ Hp). destruct H as [E _]. now exists pre, post.
  - cbn [replace]. destruct (String.prefix pat (String c s)) eqn:Hp.
    + destruct (first_at_nil _ _ _ _ Hp H) as [-> ->]. reflexivity.
    + destruct (first_at_cons _ _ _ _ _ Hp H) as (pre' & -> & H').
      simpl. f_equal. now apply IH.
Qed.

Lemma replace_absent (pat rep s : string) :
  ~ occurs pat s -> replace pat rep s = s.
Proof.
  induction s as [|c s IH]; intros H.
  - cbn [replace]. destruct (String.prefix pat "") eqn:Hp; [|reflexivity].
    exfalso. apply H. destruct (prefix_occurs _ _ Hp) as [E _]. now exists "", (drop (String.length pat) "").
  - cbn [replace]. destruct (String.prefix pat (String c s)) eqn:Hp.
    + exfalso. apply H. destruct (prefix_occurs _ _ Hp) as [E _].
      now exists "", (drop (String.length pat) (String c s)).
    + f_equal. apply IH. intros (pre & post & E). apply H.
      exists (String c pre), post. simpl. now rewrite E.
Qed.

Lemma occurs_dec (pat s : string) :
  (exists pre post, first_at pat s pre post) \/ ~ occurs pat s.
Proof.
  induction s as [|c s IH].
  - destruct (String.prefix pat "") eqn:Hp.
    + left. eexists _, _. now apply prefix_occurs.
    + right. now apply occurs_nil.
  - destruct (String.prefix pat (String c s)) eqn:Hp.
    + left. eexists _, _. now apply prefix_occurs.
    + destruct IH as [(pre & post & E & Hmin)|No].
      * left. exists (String c pre), post. split; [simpl; now rewrite E|].
        intros pre' post' E'. destruct pre' as [|d pre']; simpl in E'.
        -- rewrite E', prefix_app in Hp. discriminate.
        -- injection E' as -> E'. simpl. apply le_n_S. now apply (Hmin pre' post').
      * right. intros Ho. apply No. now apply (occurs_cons _ _ c).
Qed.

Lemma replace_spec (pat rep s : string) :
  replaced_first pat rep s (replace pat rep s).
Proof.
  destruct (occurs_dec pat s) as [(pre & post & H)|No].
  - left. exists pre, post. split; [exact H | now apply replace_first_at].
  - right. split; [exact No | now apply replace_absent].
Qed.

Lemma split_head_first_at (pat s pre post : string) :
  first_at pat s pre post -> split_head pat s = pre.
Proof.
  revert pre; induction s as [|c s IH]; intros pre H.
  - cbn [split_head]. destruct (String.prefix pat "") eqn:Hp.
    + now destruct (first_at_nil _ _ _ _ Hp H) as [-> _].
    + exfalso. apply (occurs_nil _ Hp). destruct H as [E _]. now exists pre, post.
  - cbn [split_head]. destruct (String.prefix pat (String c s)) eqn:Hp.
    + now destruct (first_at_nil _ _ _ _ Hp H) as [-> _].
    + destruct (first_at_cons _ _ _ _ _ Hp H) as (pre' & -> & H').
      f_equal. now apply IH.
Qed.

Lemma split_head_absent (pat s : string) :
  ~ occurs pat s -> split_head pat s = s.
Proof.
  induction s as [|c s IH]; intros H.
  - cbn [split_head]. now destruct (String.prefix pat "").
  - cbn [split_head]. destruct (String.prefix pat (String c s)) eqn:Hp.
    + exfalso. apply H. destruct (prefix_occurs _ _ Hp) as [E _].
      now exists "", (drop (String.length pat) (String c s)).
    + f_equal. apply IH. intros (pre & post & E). apply H.
      exists (String c pre), post. simpl. now rewrite E.
Qed.

Lemma split_head_spec (pat s : string) :
  cut_before_first pat s (split_head pat s).
Proof.
  destruct (occurs_dec pat s) as [(pre & post & H)|No].
  - left. exists post. now rewrite (split_head_first_at _ _ _ _ H).
  - right. split; [exact No | now apply split_head_absent].
Qed.

Lemma indexOf_from_absent (pat s : string) (i : Z) :
  (0 <= i)%Z -> (indexOf_from pat s i = -1)%Z <-> ~ occurs pat s.
Proof.
  revert i; induction s as [|c s IH]; intros i Hi.
  - cbn [indexOf_from]. destruct (String.prefix pat "") eqn:Hp.
    + split; [lia|]. intros H. exfalso. apply H.
      destruct (prefix_occurs _ _ Hp) as [E _]. now exists "", (drop (String.length pat) "").
    + split; [intros _; now apply occurs_nil | reflexivity].
  - cbn [indexOf_from]. destruct (String.prefix pat (String c s)) eqn:Hp.
    + split; [lia|]. intros H. exfalso. apply H.
      destruct (prefix_occurs _ _ Hp) as [E _].
      now exists "", (drop (String.length pat) (String c s)).
    + rewrite IH by lia. split; intros H Ho; apply H.
      * now apply (occurs_cons _ _ c).
      * destruct Ho as (pre & post & E). exists (String c pre), post. simpl. now rewrite E.
Qed.

Lemma indexOf_occurs (pat s : string) :
  negb (Z.eqb (indexOf pat s) (-1)) = true <-> occurs pat s.
Proof.
  unfold indexOf. rewrite negb_true_iff, Z.eqb_neq.
  rewrite (indexOf_from_absent pat s 0) by lia.
  destruct (occurs_dec pat s) as [(pre & post & E & _)|No].
  - split; [intros _; now exists pre, post | intros H N; now apply N].
  - split; [intros H; now elim H | intros H _; now apply No].
Qed.

(** ** Descriptions *)

Lemma join_strings_VStr (sep : string) (l : list string) :
  join sep (List.map VStr l) = join_strings sep l.
Proof.
  unfold join. rewrite List.map_map. simpl. now rewrite List.map_id.
Qed.

Lemma concatTag_fragment (paths : object) (node : Inline) (s : string) :
  fragment paths node s -> concatTag paths true node = Ok (VStr s).
Proof.
  intros [n v Hc Hv | n c cs text Hc Hv]; unfold concatTag; rewrite Hc.
  - now rewrite Hv.
  - rewrite Hv. cbn [negb getLink bind]. unfold link_target.
    destruct (lookup (toUpperCase text) paths) as [v|]; cbn.
    + destruct (truthy v) eqn:Tv; cbn.
      * destruct v; try discriminate Tv; cbn; now destruct (inline_jsdoc n).
      * reflexivity.
    + reflexivity.
Qed.

Lemma fragments_render (paths : object) (nodes : list Inline) (l : list string) :
  Forall2 (fragment paths) nodes l ->
  mapM (concatTag paths true) nodes = Ok (List.map VStr l).
Proof.
  induction 1 as [|node s nodes l H _ IH]; [reflexivity|].
  cbn [mapM]. fold (mapM (concatTag paths true)).
  rewrite (concatTag_fragment _ _ _ H). cbn [bind]. now rewrite IH.
Qed.

(** C1, as amended: for a metadata entry with a description block, the
    description is the fragments of the first block joined with single
    spaces, in which the first occurrence of " ." (wherever it stands, and
    no other) is replaced by "."; when that text is exactly
    "Optional parameters", the description is
    "Optional parameters: see below". *)
Theorem getDescription_joins_and_collapses_first :
  forall (paths : object) (metadata : Metadata) (b : Block) (bs : list Block)
         (nodes : list Inline) (fragments : list string),
    children (description metadata) = b :: bs ->
    block_children b = Some nodes ->
    Forall2 (fragment paths) nodes fragments ->
    exists collapsed,
      replaced_first " ." "." (join_strings " " fragments) collapsed /\
      getDescription paths metadata =
        Ok (VStr (if String.eqb collapsed "Optional parameters"
                  then "Optional parameters: see below" else collapsed)).
Proof.
  intros paths metadata b bs nodes fragments Hd Hb Hf.
  exists (replace " ." "." (join_strings " " fragments)).
  split; [apply replace_spec|].
  unfold getDescription, first_block_children. rewrite Hd. cbn [bind].
  rewrite Hb. unfold concatTags.
  rewrite (fragments_render _ _ _ Hf). cbn [bind].
  rewrite join_strings_VStr.
  destruct (String.eqb_spec (replace " ." "." (join_strings " " fragments))
              "Optional parameters") as [->|]; reflexivity.
Qed.

Lemma getDescription_joins_and_collapses_first_witness :
  exists collapsed,
    replaced_first " ." "." (join_strings " " ["Optional"; "parameters"]) collapsed /\
    getDescription [] optional_parameters =
      Ok (VStr (if String.eqb collapsed "Optional parameters"
                then "Optional parameters: see below" else collapsed)).
Proof.
  apply (getDescription_joins_and_collapses_first [] optional_parameters
           (mkBlock (Some [text_node "Optional"; text_node "parameters"])) []
           [text_node "Optional"; text_node "parameters"]).
  - reflexivity.
  - reflexivity.
  - repeat constructor.
Defined.

(** C1, as the specification has it, fails: of two occurrences of " ."
    the script collapses the first, which is not the trailing one, and
    leaves the trailing one in place. *)
Lemma getDescription_leaves_trailing_occurrence :
  getDescription [] two_sentences
    = Ok (VStr "Buffers a feature. Units are kilometers .") /\
  description_as_specified ["Buffers a feature ."; "Units are kilometers ."]
    = "Buffers a feature . Units are kilometers." /\
  getDescription [] two_sentences
    <> Ok (VStr (description_as_specified
                   ["Buffers a feature ."; "Units are kilometers ."])).
Proof.
  split; [reflexivity|]. split; [reflexivity|]. discriminate.
Qed.

(** ** Examples *)

(** C2, as amended: the snippet is the text of the first example before
    the first occurrence of a line break followed by [//addToMap], the
    line break left out too, and the whole text when there is none;
    [hasMap] tells whether [//addToMap] occurs in that text; without an
    example both are [false].  For "foo\n//addToMap\nbar" the snippet is
    "foo" and [hasMap] is [true]. *)
Theorem snippet_cut_before_marker_line :
  (forall metadata : Metadata,
      match examples metadata with
      | [] => getSnippet metadata = VBool false /\ hasMap metadata = VBool false
      | example :: _ =>
          exists (snippet : string) (found : bool),
            getSnippet metadata = VStr snippet /\
            cut_before_first (newline ++ "//addToMap")
              (example_description example) snippet /\
            hasMap metadata = VBool found /\
            (found = true <-> occurs "//addToMap" (example_description example))
      end) /\
  getSnippet (with_example foo_addToMap_bar) = VStr "foo" /\
  hasMap (with_example foo_addToMap_bar) = VBool true.
Proof.
  split; [|split; reflexivity].
  intros metadata. unfold getSnippet, hasMap.
  destruct (examples metadata) as [|example rest]; [split; reflexivity|].
  eexists _, _. split; [reflexivity|]. split; [apply split_head_spec|].
  split; [reflexivity|]. apply indexOf_occurs.
Qed.

(** C2, as the specification has it, fails: the line break before
    [//addToMap] belongs to the separator and is not part of the snippet. *)
Lemma getSnippet_drops_line_break :
  getSnippet (with_example foo_addToMap_bar) = VStr "foo" /\
  getSnippet (with_example foo_addToMap_bar) <> VStr ("foo" ++ newline).
Proof.
  split; [reflexivity | discriminate].
Qed.

(** ** Returns and throws *)

Lemma mapM_rows {A : Type} (f : A -> result value) (R : A -> value -> Prop)
  (l : list A) :
  (forall a v, R a v -> f a = Ok v) ->
  Forall (fun a => exists v, R a v) l ->
  exists rows, mapM f l = Ok rows /\ Forall2 R l rows.
Proof.
  intros HR. induction 1 as [|a l [v Hv] _ (rows & E & F)].
  - exists []. split; [reflexivity | constructor].
  - exists (v :: rows). split.
    + cbn [mapM]. fold (mapM f). rewrite (HR _ _ Hv). cbn [bind].
      now rewrite E.
    + now constructor.
Qed.

Lemma getResult_row (paths : object) (entry : Tag) (row : value) :
  result_row paths entry row -> getResult paths entry = Ok row.
Proof.
  unfold result_row, getResult.
  destruct (children (tag_description entry)) as [|b bs].
  - now intros ->.
  - intros (type & desc & -> & -> & ->). reflexivity.
Qed.

(** When every declared entry renders, [returns] and [throws] hold at
    the place of each entry a [{ type, desc }] record when it has
    descriptive text and the literal [false] when it has none, nothing
    being filtered out; both are [false] when the metadata declares
    none. *)
Theorem returns_and_throws_rows :
  forall (paths : object) (metadata : Metadata),
    match returns metadata with
    | None => getReturns paths metadata = Ok (VBool false)
    | Some entries =>
        Forall (result_renders paths) entries ->
        exists rows, getReturns paths metadata = Ok (VArr rows) /\
                     Forall2 (result_row paths) entries rows
    end /\
    match throws metadata with
    | None => getThrows paths metadata = Ok (VBool false)
    | Some entries =>
        Forall (result_renders paths) entries ->
        exists rows, getThrows paths metadata = Ok (VArr rows) /\
                     Forall2 (result_row paths) entries rows
    end.
Proof.
  intros paths metadata. unfold getReturns, getThrows. split.
  - destruct (returns metadata) as [entries|]; [|reflexivity].
    intros H.
    destruct (mapM_rows _ _ _ (getResult_row paths) H) as (rows & E & F).
    exists rows. now rewrite E.
  - destruct (throws metadata) as [entries|]; [|reflexivity].
    intros H.
    destruct (mapM_rows _ _ _ (getResult_row paths) H) as (rows & E & F).
    exists rows. now rewrite E.
Qed.

Lemma returns_and_throws_rows_witness :
  (exists rows,
      getReturns [] (with_results (Some [number_result; bare_result]) None)
        = Ok (VArr rows) /\
      Forall2 (result_row []) [number_result; bare_result] rows) /\
  getThrows [] (with_results (Some [number_result; bare_result]) None)
    = Ok (VBool false).
Proof.
  destruct (returns_and_throws_rows []
              (with_results (Some [number_result; bare_result]) None))
    as [R T].
  split; [|exact T]. apply R.
  repeat constructor.
  - exists (VObj [("type", VStr "number"); ("desc", VStr "the area")]).
    exists (VStr "number"), (VStr "the area"). repeat split; reflexivity.
  - now exists (VBool false).
Defined.

(** ** Options *)

Lemma replaced_first_prefix (pat rep rest r : string) :
  replaced_first pat rep (pat ++ rest) r -> r = rep ++ rest.
Proof.
  intros [(pre & post & H & ->)|[No _]].
  - destruct (first_at_nil pat (pat ++ rest) pre post (prefix_app _ _) H)
      as [-> ->].
    now rewrite drop_app.
  - exfalso. apply No. now exists "", rest.
Qed.

Lemma filter_find {A : Type} (f : A -> bool) (l : list A) :
  match List.find f l with
  | None => filter f l = []
  | Some a => exists l', filter f l = a :: l'
  end.
Proof.
  induction l as [|a l IH]; [reflexivity|]. simpl.
  destruct (f a); [now exists (filter f l) | exact IH].
Qed.

Lemma getOption_row (paths : object) (prop : Property) (row : value) :
  option_row paths prop row -> getOption paths prop = Ok row.
Proof.
  intros (b & bs & type & desc & stripped & dflt
          & Hd & Ht & Hc & Hs & _ & Hdef & ->).
  unfold getOption, first_block_children. rewrite Ht, Hd. cbn [bind].
  rewrite Hc. cbn [bind]. do 3 f_equal.
  - destruct Hs as [(pre & post & H & ->)|[No ->]].
    + now rewrite (replace_first_at _ _ _ _ _ H).
    + now rewrite (replace_absent _ _ _ No).
  - f_equal. f_equal. f_equal. unfold default_value in Hdef.
    destruct (prop_default prop) as [s|]; [|now subst].
    cbn [truthy]. destruct (String.eqb s ""); cbn [negb]; [now subst|].
    destruct Hdef as (r & [(pre & post & H & ->)|[No ->]] & ->).
    + now rewrite (replace_first_at _ _ _ _ _ H).
    + now rewrite (replace_absent _ _ _ No).
Qed.

(** When every property of the first parameter named "options" renders,
    each of them gives a row of the table; [options] is [false] when no
    parameters are declared and [null] when none of them is named
    "options". *)
Theorem getOptions_rows :
  forall (paths : object) (metadata : Metadata),
    match params metadata with
    | None => getOptions paths metadata = Ok (VBool false)
    | Some ps =>
        match List.find is_options ps with
        | None => getOptions paths metadata = Ok VNull
        | Some options0 =>
            forall props,
              properties options0 = Some props ->
              Forall (option_renders paths) props ->
              exists rows, getOptions paths metadata = Ok (VArr rows) /\
                           Forall2 (option_row paths) props rows
        end
    end.
Proof.
  intros paths metadata. unfold getOptions.
  destruct (params metadata) as [ps|]; [|reflexivity].
  fold is_options. pose proof (filter_find is_options ps) as F.
  destruct (List.find is_options ps) as [options0|].
  - destruct F as (l' & ->). intros props -> H.
    destruct (mapM_rows _ _ _ (getOption_row paths) H) as (rows & E & R).
    exists rows. now rewrite E.
  - now rewrite F.
Qed.

Lemma getOptions_rows_witness :
  exists rows,
    getOptions [] (with_params (Some [options_param])) = Ok (VArr rows) /\
    Forall2 (option_row []) [units_property] rows.
Proof.
  apply (getOptions_rows [] (with_params (Some [options_param]))
           [units_property] eq_refl).
  repeat constructor.
  exists (VObj [("Prop", VStr "units"); ("Type", VStr "string");
                ("Default", VStr "'kilometers'");
                ("Description", VStr "units of the radius")]).
  exists (mkBlock (Some [text_node "units of the radius"])), [],
    (VStr "string"), (VStr "units of the radius"), "units",
    (VStr "'kilometers'").
  split; [reflexivity|]. split; [reflexivity|]. split; [reflexivity|].
  split; [|split; [|split; [|reflexivity]]].
  - change "units" with (replace "options." "" "options.units").
    apply replace_spec.
  - intros rest E. change "options.units" with ("options." ++ "units") in E.
    cbn in E. now inversion E.
  - cbn. exists "'kilometers'". split; [|reflexivity].
    change "'kilometers'" with (replace backslash "" "'kilometers'") at 2.
    apply replace_spec.
Defined.


(** ** Parameters *)

Section Sorting.

Context {A : Type}.
Variable comparefn : A -> A -> option Z.

Lemma insert_element_perm (x : A) (acc : list A) :
  Permutation (x :: acc) (insert_element comparefn x acc).
Proof.
  induction acc as [|tmp rest IH]; simpl; [reflexivity|].
  destruct (positive (comparefn tmp x)); [|reflexivity].
  rewrite perm_swap. now constructor.
Qed.

Lemma sort_perm (l : list A) : Permutation l (sort comparefn l).
Proof.
  unfold sort. rewrite <- Permutation_rev.
  assert (G : forall acc,
             Permutation (rev l ++ acc)
               (fold_left (fun p e => insert_element comparefn e p) l acc)).
  { induction l as [|x l IH]; intros acc; simpl; [reflexivity|].
    rewrite <- IH, <- List.app_assoc. simpl.
    apply Permutation_app_head, insert_element_perm. }
  specialize (G []). rewrite List.app_nil_r in G.
  now rewrite <- G, <- Permutation_rev.
Qed.

Variable key : A -> Z.
Variable keyed : A -> Prop.
Hypothesis comparefn_key :
  forall a b, keyed a -> keyed b -> comparefn a b = Some (key a - key b)%Z.

Lemma insert_element_sorted (x : A) (acc : list A) :
  keyed x -> Forall keyed acc ->
  StronglySorted (descending_by key) acc ->
  StronglySorted (descending_by key) (insert_element comparefn x acc).
Proof.
  intros Kx. induction acc as [|tmp rest IH]; intros K S; simpl.
  - repeat constructor.
  - inversion K as [|? ? Kt Kr]; subst. inversion S as [|? ? Sr Ft]; subst.
    rewrite (comparefn_key _ _ Kt Kx). unfold positive.
    destruct (Z.ltb_spec 0 (key tmp - key x)) as [Hlt|Hge].
    + constructor; [now apply IH|].
      apply (Permutation_Forall (insert_element_perm x rest)).
      constructor; [unfold descending_by; lia | exact Ft].
    + constructor; [exact S|]. constructor; [unfold descending_by; lia|].
      apply (Forall_impl _ (P := (descending_by key) tmp)); [|exact Ft].
      unfold descending_by; intros; lia.
Qed.

Lemma StronglySorted_rev (l : list A) :
  StronglySorted (descending_by key) l -> StronglySorted (ascending_by key) (rev l).
Proof.
  induction 1 as [|a l S IH F]; simpl; [constructor|].
  assert (G : forall l', StronglySorted (ascending_by key) l' ->
                         Forall (fun b => (ascending_by key) b a) l' ->
                         StronglySorted (ascending_by key) (l' ++ [a])).
  { induction 1 as [|b l' S' IH' F']; intros Fa; simpl.
    - repeat constructor.
    - inversion Fa; subst. constructor; [now apply IH'|].
      apply Forall_app. split; [exact F'|now repeat constructor]. }
  apply G; [exact IH|]. apply Forall_rev. exact F.
Qed.

Lemma sort_sorted (l : list A) :
  Forall keyed l -> StronglySorted (ascending_by key) (sort comparefn l).
Proof.
  intros K. unfold sort. apply StronglySorted_rev.
  assert (G : forall acc, Forall keyed acc -> StronglySorted (descending_by key) acc ->
              StronglySorted (descending_by key)
                (fold_left (fun p e => insert_element comparefn e p) l acc)).
  { induction K as [|x l Kx K IH]; intros acc Ka Sa; simpl; [exact Sa|].
    apply IH.
    - apply (Permutation_Forall (insert_element_perm x acc)). now constructor.
    - now apply insert_element_sorted. }
  apply G; constructor.
Qed.

End Sorting.

Lemma compare_lineNum_key (a b : value) :
  has_lineNum a -> has_lineNum b ->
  compare_lineNum a b = Some (lineNum_key a - lineNum_key b)%Z.
Proof.
  intros [x Hx] [y Hy]. unfold compare_lineNum, lineNum_key.
  now rewrite Hx, Hy.
Qed.

Lemma param_record_has_lineNum (paths : object) (p : Param) (v : value) :
  param_record paths p v -> has_lineNum v.
Proof.
  intros (b & bs & type & desc & _ & _ & _ & _ & ->).
  now exists (lineNumber p).
Qed.

Lemma getParam_record (paths : object) (p : Param) (v : value) :
  (param_type p = None /\ v = VObj [("type", VNull)]) \/ param_record paths p v ->
  getParam paths p = Ok v.
Proof.
  unfold getParam. intros [[E ->]|(b & bs & type & desc & T & C & Ht & Hd & ->)].
  - now rewrite E.
  - rewrite C. destruct (param_type p) as [t|] eqn:E; [|now elim T].
    rewrite Ht. cbn [bind]. now rewrite Hd.
Qed.

Lemma filter_typed_records (paths : object) (ps : list Param) (vals : list value) :
  Forall2 (fun p v => (param_type p = None /\ v = VObj [("type", VNull)])
                      \/ param_record paths p v) ps vals ->
  Forall2 (param_record paths) (filter is_typed ps)
    (filter (fun param => negb (is_null (property param "type"))) vals).
Proof.
  induction 1 as [|p v ps vals [[E ->]|R] _ IH]; [constructor| |].
  - simpl. unfold is_typed. now rewrite E.
  - pose proof R as (b & bs & type & desc & T & _ & _ & _ & ->).
    simpl. unfold is_typed. destruct (param_type p); [|now elim T].
    now constructor.
Qed.

Lemma sorted_lineNum_le (l : list value) :
  Forall has_lineNum l ->
  StronglySorted (fun a b => (lineNum_key a <= lineNum_key b)%Z) l ->
  StronglySorted lineNum_le l.
Proof.
  intros K S. induction S as [|a l S IH F]; [constructor|].
  inversion K as [|? ? [x Hx] Kl]; subst. constructor; [now apply IH|].
  rewrite Forall_forall in *. intros b Hb.
  destruct (Kl b Hb) as [y Hy]. specialize (F b Hb).
  unfold lineNum_key in F. rewrite Hx, Hy in F. now exists x, y.
Qed.

(** Without a placeholder the sort does its work: when every parameter
    that has a type has descriptive text too, [params] holds the records
    of the typed parameters, in ascending order of their line numbers,
    each without its line number. *)
Theorem getParams_sorted_when_described :
  forall (paths : object) (metadata : Metadata) (ps : list Param),
    params metadata = Some ps ->
    Forall (param_described paths) ps ->
    exists records sorted,
      Forall2 (param_record paths) (filter is_typed ps) records /\
      Permutation records sorted /\
      StronglySorted lineNum_le sorted /\
      getParams paths metadata = Ok (VArr (List.map delete_lineNum sorted)).
Proof.
  intros paths metadata ps E D. unfold getParams. rewrite E.
  destruct (mapM_rows (getParam paths)
              (fun p v => (param_type p = None /\ v = VObj [("type", VNull)])
                          \/ param_record paths p v) ps
              (getParam_record paths)) as (vals & -> & F).
  { apply (Forall_impl _ (P := param_described paths)); [|exact D].
    intros p [N|[v R]]; eauto. }
  cbn [bind]. apply filter_typed_records in F.
  set (kept := filter _ vals) in *.
  assert (K : Forall has_lineNum kept).
  { clear -F. induction F; constructor; eauto using param_record_has_lineNum. }
  exists kept, (sort compare_lineNum kept).
  split; [exact F|]. split; [apply sort_perm|]. split; [|reflexivity].
  apply sorted_lineNum_le.
  - apply (Permutation_Forall (sort_perm compare_lineNum kept) K).
  - apply (sort_sorted compare_lineNum lineNum_key has_lineNum
             compare_lineNum_key kept K).
Qed.

Lemma getParams_sorted_when_described_witness :
  exists records sorted,
    Forall2 (param_record [])
      (filter is_typed
         [number_param "radius" 5 (paragraph [text_node "distance to draw"]);
          number_param "units" 3 (paragraph [text_node "unit of the radius"])])
      records /\
    Permutation records sorted /\
    StronglySorted lineNum_le sorted /\
    getParams []
      (with_params
         (Some [number_param "radius" 5 (paragraph [text_node "distance to draw"]);
                number_param "units" 3 (paragraph [text_node "unit of the radius"])]))
      = Ok (VArr (List.map delete_lineNum sorted)).
Proof.
  apply getParams_sorted_when_described; [reflexivity|].
  repeat (constructor;
          [right; eexists; unfold param_record; eexists _, _, _, _;
           (split; [discriminate|]); repeat (split; [reflexivity|]);
           reflexivity|]).
  constructor.
Defined.

(** C3 on the parameters [radius] (line 5), [steps] (line 4, a type and
    no text) and [units] (line 3): the placeholder of [steps] compares as
    NaN with both records, every comparison being between neighbours, so
    the sort moves nothing and the record of line 5 stays before the
    record of line 3. *)
Theorem getParams_placeholder_blocks_sort :
  getParams [] (with_params (Some unsorted_params))
    = Ok (VArr [VObj [("Argument", VStr "radius"); ("Type", VStr "number");
                      ("Description", VStr "distance to draw")];
                VBool false;
                VObj [("Argument", VStr "units"); ("Type", VStr "number");
                      ("Description", VStr "unit of the radius")]]).
Proof. reflexivity. Qed.

(** ** The table of links and the rendering of types *)

Lemma lookup_set_same {A : Type} (k : string) (v : A) (o : list (string * A)) :
  lookup k (set_field k v o) = Some v.
Proof.
  induction o as [|[k' v'] o IH]; simpl.
  - now rewrite String.eqb_refl.
  - destruct (String.eqb k' k) eqn:E; simpl; now rewrite E.
Qed.

Lemma lookup_set_other {A : Type} (k k' : string) (v : A)
  (o : list (string * A)) :
  k <> k' -> lookup k (set_field k' v o) = lookup k o.
Proof.
  intros N. induction o as [|[k0 v0] o IH]; simpl.
  - destruct (String.eqb_spec k' k); [now elim N | reflexivity].
  - destruct (String.eqb_spec k0 k') as [->|]; simpl.
    + destruct (String.eqb_spec k' k); [now elim N | reflexivity].
    + now rewrite IH.
Qed.

Lemma lookup_In {A : Type} (k : string) (v : A) (o : list (string * A)) :
  lookup k o = Some v -> In k (List.map fst o).
Proof.
  induction o as [|[k' v'] o IH]; simpl; [discriminate|].
  destruct (String.eqb_spec k' k); auto.
Qed.

Lemma lookup_not_In {A : Type} (k : string) (o : list (string * A)) :
  ~ In k (List.map fst o) -> lookup k o = None.
Proof.
  induction o as [|[k' v'] o IH]; simpl; [reflexivity|].
  intros N. destruct (String.eqb_spec k' k); [tauto | apply IH; tauto].
Qed.

Lemma upper_ascii_idempotent (c : ascii) :
  upper_ascii (upper_ascii c) = upper_ascii c.
Proof.
  destruct c as [[] [] [] [] [] [] [] []]; reflexivity.
Qed.

Lemma toUpperCase_idempotent (s : string) :
  toUpperCase (toUpperCase s) = toUpperCase s.
Proof.
  induction s as [|c s IH]; simpl; [reflexivity|].
  now rewrite upper_ascii_idempotent, IH.
Qed.

Lemma upperCasePaths_fold (paths : object) :
  upperCasePaths paths = fold_left upperCaseKey (List.map fst paths) paths.
Proof. reflexivity. Qed.

Section CaseInsensitive.

(** [k] is the one key of the table whose upper-case form is [K]. *)
Variables (k K : string) (v : value).
Hypothesis upper_k : toUpperCase k = K.

Lemma upperCaseKey_keeps_source (acc : object) (k' : string) :
  (toUpperCase k' = K -> k' = k) ->
  lookup k acc = Some v -> lookup k (upperCaseKey acc k') = Some v.
Proof.
  intros Only I. unfold upperCaseKey.
  destruct (String.eqb_spec k (toUpperCase k')) as [E|N].
  - assert (E' : toUpperCase k' = K).
    { rewrite <- upper_k, E. symmetry. apply toUpperCase_idempotent. }
    rewrite (Only E') in *. rewrite I, <- E. apply lookup_set_same.
  - destruct (lookup k' acc); now rewrite lookup_set_other.
Qed.

Lemma upperCaseKey_keeps_copy (acc : object) (k' : string) :
  (toUpperCase k' = K -> k' = k) ->
  lookup k acc = Some v ->
  k' = k \/ lookup K acc = Some v ->
  lookup K (upperCaseKey acc k') = Some v.
Proof.
  intros Only I J. unfold upperCaseKey.
  destruct (String.eqb_spec K (toUpperCase k')) as [E|N].
  - rewrite (Only (eq_sym E)), I, upper_k. apply lookup_set_same.
  - destruct J as [->|J]; [now elim N|].
    destruct (lookup k' acc); now rewrite lookup_set_other.
Qed.

Lemma fold_upperCaseKey_copy (ks : list string) (acc : object) :
  (forall k', In k' ks -> toUpperCase k' = K -> k' = k) ->
  lookup k acc = Some v ->
  In k ks \/ lookup K acc = Some v ->
  lookup K (fold_left upperCaseKey ks acc) = Some v.
Proof.
  revert acc. induction ks as [|k' ks IH]; intros acc Only I J; simpl.
  - destruct J as [[]|J]; exact J.
  - apply IH.
    + intros; apply Only; simpl; auto.
    + apply upperCaseKey_keeps_source; [apply Only; simpl; auto | exact I].
    + destruct (String.eqb_spec k' k) as [->|N].
      * right. apply upperCaseKey_keeps_copy; auto.
      * destruct J as [[E|Hin]|J]; [now elim N | now left |].
        right. apply upperCaseKey_keeps_copy; auto.
        apply Only; simpl; auto.
Qed.

(** The entry of the only key that reads [K] in upper case is found
    under [K]. *)
Lemma upperCasePaths_copy (paths : object) :
  (forall k', In k' (List.map fst paths) -> toUpperCase k' = K -> k' = k) ->
  lookup k paths = Some v ->
  lookup K (upperCasePaths paths) = Some v.
Proof.
  intros Only I. rewrite upperCasePaths_fold.
  apply fold_upperCaseKey_copy; auto. left. now apply (lookup_In k v).
Qed.

End CaseInsensitive.

(** No key that reads [K] in upper case: nothing is found under [K]. *)
Lemma upperCasePaths_none (K : string) (paths : object) :
  toUpperCase K = K ->
  (forall k', In k' (List.map fst paths) -> toUpperCase k' <> K) ->
  lookup K (upperCasePaths paths) = None.
Proof.
  intros UK No. rewrite upperCasePaths_fold.
  assert (G : forall ks acc,
             (forall k', In k' ks -> toUpperCase k' <> K) ->
             lookup K acc = None ->
             lookup K (fold_left upperCaseKey ks acc) = None).
  { induction ks as [|k' ks IH]; intros acc N E; simpl; [exact E|].
    apply IH; [intros; apply N; simpl; auto|].
    unfold upperCaseKey.
    assert (K <> toUpperCase k') by (intros ->; apply (N k'); simpl; auto).
    destruct (lookup k' acc); now rewrite lookup_set_other. }
  apply G; [exact No|]. apply lookup_not_In. intros Hin. now apply (No K).
Qed.

(** C6: the union of [Number] and [Feature], rendered with links, when
    the manifest's table has an entry whose key reads FEATURE in upper
    case and none whose key reads NUMBER: the text is the two names
    between parentheses with a bar between them, [Feature] alone inside a
    hyperlink to the entry. *)
Theorem getType_union_links_Feature_only :
  forall (paths : object) (key url : string),
    lookup key paths = Some (VStr url) ->
    url <> "" ->
    toUpperCase key = "FEATURE" ->
    (forall k', In k' (List.map fst paths) ->
                toUpperCase k' = "FEATURE" -> k' = key) ->
    (forall k', In k' (List.map fst paths) -> toUpperCase k' <> "NUMBER") ->
    getType (upperCasePaths paths) (Some number_or_feature) true
      = Ok (VStr ("(Number | <a target=" ++ quote ++ "_blank" ++ quote
                    ++ " href=" ++ quote ++ url ++ quote ++ ">Feature</a>)")).
Proof.
  intros paths key url Hk Hu Up Only No.
  pose proof (upperCasePaths_copy key "FEATURE" (VStr url) Up paths Only Hk) as F.
  pose proof (upperCasePaths_none "NUMBER" paths eq_refl No) as N.
  unfold getType, number_or_feature, UnionType, NameExpression.
  cbn [getTypeNode type_is String.eqb Ascii.eqb Bool.eqb mapM bind].
  unfold createLink, getLink.
  change (toUpperCase "Number") with "NUMBER".
  change (toUpperCase "Feature") with "FEATURE".
  rewrite N, F. cbn [truthy].
  destruct (String.eqb_spec url "") as [->|_]; [now elim Hu|].
  cbn. unfold anchor. cbn. now rewrite !append_assoc.
Qed.

Lemma getType_union_links_Feature_only_witness :
  getType (upperCasePaths [("feature", VStr "http://geojson.org/Feature")])
    (Some number_or_feature) true
    = Ok (VStr ("(Number | <a target=" ++ quote ++ "_blank" ++ quote
                  ++ " href=" ++ quote ++ "http://geojson.org/Feature"
                  ++ quote ++ ">Feature</a>)")).
Proof.
  apply (getType_union_links_Feature_only
           [("feature", VStr "http://geojson.org/Feature")] "feature").
  - reflexivity.
  - discriminate.
  - reflexivity.
  - intros k' [<-|[]] _. reflexivity.
  - intros k' [<-|[]]. discriminate.
Defined.

(** ** The loader *)

Lemma get_present (v : value) (k : string) :
  present v -> get v k = Ok (property v k).
Proof.
  intros [U N]. unfold property.
  destruct v; try reflexivity; try (now elim U); try (now elim N); simpl.
  - now destruct (String.eqb k "length").
  - now destruct (String.eqb k "length").
  - now destruct (lookup k fields).
Qed.

Lemma order_of_store_app (st st' : store) :
  order_of_store (st ++ st')%list
  = (order_of_store st ++ order_of_store st')%list.
Proof.
  unfold order_of_store. now rewrite List.map_app, List.concat_app.
Qed.

Lemma push_module_order (entry : value) (st : store) :
  st <> [] ->
  exists st', push_module entry st = Ok st' /\ st' <> [] /\
              order_of_store st'
              = (order_of_store st ++ [ModuleRef (property entry "name")])%list /\
              (placeholder entry -> all_placeholders st -> all_placeholders st').
Proof.
  induction st as [|g st IH]; intros N; [now elim N|].
  destruct st as [|g' st].
  - eexists. split; [reflexivity|]. split; [discriminate|]. split.
    + unfold order_of_store, group_view. simpl.
      rewrite List.map_app, !List.app_nil_r. reflexivity.
    + intros P A. inversion A; subst. repeat constructor. simpl.
      apply Forall_app. split; [assumption | now repeat constructor].
  - destruct IH as (st' & E & N' & O & A); [discriminate|].
    exists (g :: st'). split.
    + change (push_module entry (g :: g' :: st))
        with (rest' <- push_module entry (g' :: st) ;; Ok (g :: rest')).
      now rewrite E.
    + split; [discriminate|]. split.
      * change (g :: st') with ([g] ++ st')%list.
        change (g :: g' :: st) with ([g] ++ g' :: st)%list.
        rewrite !order_of_store_app, O. now rewrite List.app_assoc.
      * intros P H. inversion H; subst. constructor; [assumption|].
        now apply A.
Qed.

Lemma tocStep_order (st : store) (tocItem : value) :
  present tocItem ->
  st <> [] \/ truthy (property tocItem "name") = true ->
  exists st', tocStep st tocItem = Ok st' /\ st' <> [] /\
              order_of_store st' = (order_of_store st ++ [toc_view tocItem])%list /\
              (all_placeholders st -> all_placeholders st').
Proof.
  intros P H. unfold tocStep, toc_view. rewrite (get_present _ _ P). cbn [bind].
  destruct (truthy (property tocItem "name")) eqn:T.
  - eexists. split; [reflexivity|]. split; [now destruct st|]. split.
    + rewrite order_of_store_app. unfold order_of_store at 2. simpl.
      reflexivity.
    + intros A. apply Forall_app. split; [exact A | now repeat constructor].
  - destruct H as [N|]; [|discriminate].
    destruct (push_module_order
                (VObj [("name", tocItem); ("hidden", VBool false)]) st N)
      as (st' & E & N' & O & A).
    exists st'. repeat split; auto. apply A. now exists tocItem.
Qed.

Lemma forEachM_tocStep_order (toc : list value) (st : store) :
  Forall present toc ->
  st <> [] \/ match toc with
              | [] => True
              | first :: _ => truthy (property first "name") = true
              end ->
  exists st', forEachM tocStep toc st = Ok st' /\
              order_of_store st' = (order_of_store st ++ order_of_toc toc)%list /\
              (all_placeholders st -> all_placeholders st').
Proof.
  intros P. revert st. induction P as [|tocItem toc Pi P IH]; intros st H.
  - exists st. simpl. now rewrite List.app_nil_r.
  - destruct (tocStep_order st tocItem Pi H) as (st1 & E1 & N1 & O1 & A1).
    destruct (IH st1 (or_introl N1)) as (st' & E & O & A).
    exists st'. split; [simpl; now rewrite E1|]. split.
    + rewrite O, O1, <- List.app_assoc. reflexivity.
    + auto.
Qed.

Lemma loadToc_order (toc : list value) :
  toc_loads toc ->
  exists st, loadToc toc = Ok st /\ order_of_store st = order_of_toc toc /\
             all_placeholders st.
Proof.
  intros [P F].
  destruct (forEachM_tocStep_order toc [] P (or_intror F)) as (st & E & O & A).
  exists st. split; [exact E|]. split; [exact O|]. apply A. constructor.
Qed.

(** ** Filling in a module entry *)

Lemma find_from_Some {A : Type} (p : A -> bool) (l : list A) (i j : nat) (a : A) :
  find_from p l i = Some (j, a) ->
  exists k, j = i + k /\ nth_error l k = Some a /\ p a = true.
Proof.
  revert i. induction l as [|b l IH]; intros i H; simpl in H; [discriminate|].
  destruct (p b) eqn:E.
  - injection H as <- <-. exists 0. now rewrite Nat.add_0_r.
  - destruct (IH _ H) as (k & -> & N & P). exists (S k). split; [lia | auto].
Qed.

Lemma find_from_None {A : Type} (p : A -> bool) (l : list A) (i : nat) :
  Forall (fun a => p a = false) l -> find_from p l i = None.
Proof.
  intros F. revert i. induction F as [|a l E _ IH]; intros i; simpl; [reflexivity|].
  now rewrite E.
Qed.

Lemma getModuleObj_from_Some (st : store) (n : string) (i i' i2 : nat)
  (entry : value) :
  getModuleObj_from st n i = Some (i', i2, entry) ->
  exists k, i' = i + k /\ entry_at st k i2 = Some entry /\
            name_is n entry = true.
Proof.
  revert i. induction st as [|g st IH]; intros i H; simpl in H; [discriminate|].
  destruct (find_from (name_is n) (modules g) 0) as [[j a]|] eqn:F.
  - injection H as <- <- <-.
    destruct (find_from_Some _ _ _ _ _ F) as (k & -> & N & P).
    exists 0. rewrite Nat.add_0_r. auto.
  - destruct (IH _ H) as (k & -> & N & P). exists (S k). split; [lia | auto].
Qed.

Lemma getModuleObj_Some (st : store) (n : string) (i i2 : nat) (entry : value) :
  getModuleObj st n = Some (i, i2, entry) ->
  entry_at st i i2 = Some entry /\ name_is n entry = true.
Proof.
  intros H. destruct (getModuleObj_from_Some _ _ _ _ _ _ H) as (k & -> & E).
  exact E.
Qed.

Lemma getModuleObj_None (st : store) (n : string) :
  Forall (fun g => Forall (fun e => name_is n e = false) (modules g)) st ->
  getModuleObj st n = None.
Proof.
  intros H. unfold getModuleObj. generalize 0.
  induction H as [|g st F _ IH]; intros i; simpl; [reflexivity|].
  now rewrite (find_from_None _ _ 0 F).
Qed.

Lemma nth_error_update_nth {A : Type} (f : A -> A) (l : list A) (i j : nat) :
  nth_error (update_nth i f l) j
  = if Nat.eqb i j then option_map f (nth_error l j) else nth_error l j.
Proof.
  revert i j. induction l as [|a l IH]; intros [|i] [|j]; simpl; auto.
  - now destruct (Nat.eqb i j).
Qed.

Lemma map_update_nth {A B : Type} (v : A -> B) (f : A -> A) (l : list A)
  (i : nat) :
  (forall a, nth_error l i = Some a -> v (f a) = v a) ->
  List.map v (update_nth i f l) = List.map v l.
Proof.
  revert i. induction l as [|a l IH]; intros [|i] H; simpl; auto.
  - now rewrite H.
  - now rewrite IH.
Qed.

Lemma property_assign (moduleObj : value) (k k' : string) (v : value) :
  k' <> k -> property (assign moduleObj k v) k' = property moduleObj k'.
Proof.
  intros N. destruct moduleObj; try reflexivity.
  unfold property. simpl. now rewrite lookup_set_other.
Qed.

Lemma fillModuleObj_name (paths : object) (npmName : string) (parent : value)
  (metadata : Metadata) (moduleObj moduleObj' : value) :
  fillModuleObj paths npmName parent metadata moduleObj = Ok moduleObj' ->
  property moduleObj' "name" = property moduleObj "name".
Proof.
  unfold fillModuleObj.
  destruct (getDescription paths metadata); [|discriminate].
  destruct (getReturns paths metadata); [|discriminate].
  destruct (getParams paths metadata); [|discriminate].
  destruct (getOptions paths metadata); [|discriminate].
  destruct (getThrows paths metadata); [|discriminate].
  cbn [bind]. intros [= <-].
  now rewrite !property_assign by discriminate.
Qed.

Lemma write_entry_order (st : store) (i i2 : nat) (entry entry' : value) :
  entry_at st i i2 = Some entry ->
  property entry' "name" = property entry "name" ->
  order_of_store (write_entry i i2 entry' st) = order_of_store st.
Proof.
  intros E P. unfold order_of_store, write_entry. f_equal.
  apply map_update_nth. intros g G. unfold entry_at in E. rewrite G in E.
  unfold group_view. simpl. f_equal.
  apply map_update_nth. intros a Ha. rewrite E in Ha. injection Ha as <-.
  now rewrite P.
Qed.

Lemma write_entry_elsewhere (st : store) (i i2 j j2 : nat)
  (entry entry' other : value) :
  entry_at st i i2 = Some entry ->
  entry_at st j j2 = Some other ->
  (i = j -> i2 = j2 -> other = entry') ->
  entry_at (write_entry i i2 entry' st) j j2 = Some other.
Proof.
  intros E O D. unfold entry_at, write_entry in *.
  rewrite nth_error_update_nth.
  destruct (Nat.eqb_spec i j) as [->|]; [|exact O].
  destruct (nth_error st j) as [g|]; [|discriminate]. simpl.
  rewrite nth_error_update_nth.
  destruct (Nat.eqb_spec i2 j2) as [->|]; [|exact O].
  rewrite O. simpl. f_equal. symmetry. now apply D.
Qed.

Section Normalize.

Variable paths : object.

Lemma normalize_order (npmName : string) (parent : value) (st st' : store)
  (metadata : Metadata) :
  normalize paths npmName parent st metadata = Ok st' ->
  order_of_store st' = order_of_store st.
Proof.
  unfold normalize.
  destruct (getModuleObj st (name metadata)) as [[[i i2] moduleObj]|] eqn:G;
    [|now intros [= <-]].
  destruct (fillModuleObj paths npmName parent metadata moduleObj)
    as [moduleObj'|] eqn:F; [|discriminate].
  cbn [bind]. intros [= <-].
  destruct (getModuleObj_Some _ _ _ _ _ G) as [E _].
  apply (write_entry_order _ _ _ _ _ E). now apply fillModuleObj_name in F.
Qed.

Lemma normalize_other (npmName : string) (parent : value) (st st' : store)
  (metadata : Metadata) (j j2 : nat) (other : value) :
  normalize paths npmName parent st metadata = Ok st' ->
  entry_at st j j2 = Some other ->
  name_is (name metadata) other = false ->
  entry_at st' j j2 = Some other.
Proof.
  unfold normalize.
  destruct (getModuleObj st (name metadata)) as [[[i i2] moduleObj]|] eqn:G;
    [|now intros [= <-]].
  destruct (fillModuleObj paths npmName parent metadata moduleObj)
    as [moduleObj'|] eqn:F; [|discriminate].
  cbn [bind]. intros [= <-] O U.
  destruct (getModuleObj_Some _ _ _ _ _ G) as [E M].
  apply (write_entry_elsewhere _ _ _ _ _ _ _ _ E O).
  intros -> ->. rewrite E in O. injection O as ->. congruence.
Qed.

Lemma forEachM_normalize (npmName : string) (parent : value)
  (docs : list Metadata) (st st' : store) :
  forEachM (normalize paths npmName parent) docs st = Ok st' ->
  order_of_store st' = order_of_store st /\
  forall j j2 other,
    entry_at st j j2 = Some other ->
    unmatched (List.map name docs) other ->
    entry_at st' j j2 = Some other.
Proof.
  revert st. induction docs as [|metadata docs IH]; intros st H; simpl in H.
  - injection H as <-. auto.
  - destruct (normalize paths npmName parent st metadata) as [st1|] eqn:N;
      [|discriminate].
    cbn [bind] in H. destruct (IH _ H) as [O K]. split.
    + rewrite O. now apply normalize_order in N.
    + intros j j2 other E U. apply K.
      * apply (normalize_other _ _ _ _ _ _ _ _ N E). apply U. now left.
      * intros n Hn. apply U. now right.
Qed.

Lemma runQueue_written (packages : list Package) (st config : store)
  (out : list string) :
  written (runQueue paths packages st out) = Some config ->
  Forall extracted packages /\
  console (runQueue paths packages st out)
  = (out ++ List.map parsing_line packages ++ ["Saved Config:"])%list /\
  order_of_store config = order_of_store st /\
  forall j j2 other,
    entry_at st j j2 = Some other ->
    unmatched (metadata_names packages) other ->
    entry_at config j j2 = Some other.
Proof.
  revert st out. induction packages as [|pckg packages IH]; intros st out H.
  - simpl in H. injection H as <-. simpl. auto.
  - cbn [runQueue] in *.
    destruct (extraction pckg) as [| | |docs] eqn:X; try discriminate.
    destruct (forEachM (normalize paths (pckg_name pckg) (parent_of pckg docs))
                docs st) as [st1|] eqn:N; [|discriminate].
    destruct (IH _ _ H) as (F & C & O & K).
    destruct (forEachM_normalize _ _ _ _ _ N) as [O1 K1].
    split; [constructor; [now exists docs | exact F]|].
    split; [rewrite C, <- List.app_assoc; reflexivity|].
    split; [now rewrite O, O1|].
    intros j j2 other E U. apply K.
    + apply K1; [exact E|]. intros n Hn. apply U.
      unfold metadata_names. simpl. rewrite X. apply in_or_app. now left.
    + intros n Hn. apply U.
      unfold metadata_names. simpl. apply in_or_app. now right.
Qed.

End Normalize.

(** ** The run *)

Lemma push_module_placeholders (entry : value) (st st' : store) :
  push_module entry st = Ok st' ->
  placeholder entry -> all_placeholders st -> all_placeholders st'.
Proof.
  revert st'. induction st as [|g st IH]; intros st' H P A; [discriminate|].
  inversion A as [|? ? Ag Ast]; subst. destruct st as [|g' st].
  - injection H as <-. repeat constructor. simpl.
    apply Forall_app. split; [assumption | now repeat constructor].
  - change (push_module entry (g :: g' :: st))
      with (rest' <- push_module entry (g' :: st) ;; Ok (g :: rest')) in H.
    destruct (push_module entry (g' :: st)) as [rest'|]; [|discriminate].
    injection H as <-. constructor; [assumption|]. now apply IH.
Qed.

Lemma loadToc_placeholders (toc : list value) (st : store) :
  loadToc toc = Ok st -> all_placeholders st.
Proof.
  unfold loadToc.
  assert (G : forall st0, all_placeholders st0 ->
                          forEachM tocStep toc st0 = Ok st -> all_placeholders st).
  { induction toc as [|tocItem toc IH]; intros st0 A H; simpl in H.
    - now injection H as <-.
    - destruct (tocStep st0 tocItem) as [st1|] eqn:T; [|discriminate].
      apply (IH st1); [|exact H].
      unfold tocStep in T. destruct (get tocItem "name") as [n|]; [|discriminate].
      cbn [bind] in T. destruct (truthy n).
      + injection T as <-. apply Forall_app. split; [exact A|].
        now repeat constructor.
      + apply (push_module_placeholders _ _ _ T); [|exact A].
        now exists tocItem. }
  apply G. constructor.
Qed.

Lemma entry_at_In (st : store) (i i2 : nat) (entry : value) :
  entry_at st i i2 = Some entry ->
  exists g, In g st /\ In entry (modules g).
Proof.
  unfold entry_at. destruct (nth_error st i) as [g|] eqn:G; [|discriminate].
  intros E. exists g. split; eauto using nth_error_In.
Qed.

Lemma In_entry_at (st : store) (g : ModuleGroup) (entry : value) :
  In g st -> In entry (modules g) ->
  exists i i2, entry_at st i i2 = Some entry.
Proof.
  intros G E. destruct (In_nth_error _ _ G) as [i Hi].
  destruct (In_nth_error _ _ E) as [i2 Hi2].
  exists i, i2. unfold entry_at. now rewrite Hi.
Qed.

Lemma tocStep_Ok_order (st st' : store) (tocItem : value) :
  tocStep st tocItem = Ok st' ->
  order_of_store st' = (order_of_store st ++ [toc_view tocItem])%list.
Proof.
  intros H.
  assert (P : present tocItem).
  { unfold tocStep in H. split; intros ->; discriminate H. }
  assert (N : st <> [] \/ truthy (property tocItem "name") = true).
  { unfold tocStep in H. rewrite (get_present _ _ P) in H. cbn [bind] in H.
    destruct (truthy (property tocItem "name")); [now right|].
    left. intros ->. discriminate H. }
  destruct (tocStep_order st tocItem P N) as (st1 & E & _ & O & _).
  rewrite H in E. now injection E as <-.
Qed.

Lemma loadToc_Ok_order (toc : list value) (st : store) :
  loadToc toc = Ok st -> order_of_store st = order_of_toc toc.
Proof.
  unfold loadToc.
  assert (G : forall st0,
             forEachM tocStep toc st0 = Ok st ->
             order_of_store st = (order_of_store st0 ++ order_of_toc toc)%list).
  { induction toc as [|tocItem toc IH]; intros st0 H; simpl in H.
    - injection H as <-. simpl. now rewrite List.app_nil_r.
    - destruct (tocStep st0 tocItem) as [st1|] eqn:T; [|discriminate].
      cbn [bind] in H. rewrite (IH _ H), (tocStep_Ok_order _ _ _ T).
      now rewrite <- List.app_assoc. }
  intros H. now rewrite (G [] H).
Qed.

(** C7: the configuration that is written lists the groups, and inside
    each group the modules, in the order of the manifest's [toc]: the
    loader builds the tree in that order, which it does for every [toc]
    whose first item starts a group, and filling in an entry changes
    neither the order nor the number of the groups and modules. *)
Theorem output_order_is_toc_order :
  forall (docs : Manifest) (packages : list Package),
    (forall effects config,
        main docs packages = Ok effects ->
        written effects = Some config ->
        order_of_store config = order_of_toc (manifest_toc docs)) /\
    (toc_loads (manifest_toc docs) ->
     exists st effects,
       loadToc (manifest_toc docs) = Ok st /\
       order_of_store st = order_of_toc (manifest_toc docs) /\
       main docs packages = Ok effects) /\
    (forall paths npmName parent st0 metadata st1,
        normalize paths npmName parent st0 metadata = Ok st1 ->
        order_of_store st1 = order_of_store st0).
Proof.
  intros docs packages. split; [|split].
  - intros effects config M W. unfold main in M.
    destruct (loadToc (manifest_toc docs)) as [st|] eqn:E; [|discriminate].
    cbn [bind] in M. injection M as <-.
    apply runQueue_written in W. destruct W as (_ & _ & O & _).
    rewrite O. now apply loadToc_Ok_order.
  - intros L. destruct (loadToc_order _ L) as (st & E & O & _).
    exists st. eexists. split; [exact E|]. split; [exact O|].
    unfold main. rewrite E. reflexivity.
  - intros. eapply normalize_order. eassumption.
Qed.

Lemma output_order_is_toc_order_witness :
  exists config,
    written (runQueue (upperCasePaths (manifest_paths sample_manifest))
               [area_package; buffer_package [buffer_metadata]]
               [mkGroup (VStr "Transformation")
                  [VObj [("name", VStr "buffer"); ("hidden", VBool false)];
                   VObj [("name", VStr "along"); ("hidden", VBool false)]]] [])
      = Some config /\
    order_of_store config
      = [GroupMark (VStr "Transformation"); ModuleRef (VStr "buffer");
         ModuleRef (VStr "along")].
Proof.
  eexists. split; [reflexivity|].
  apply (proj1 (output_order_is_toc_order sample_manifest
                  [area_package; buffer_package [buffer_metadata]])
           (runQueue (upperCasePaths (manifest_paths sample_manifest))
              [area_package; buffer_package [buffer_metadata]]
              [mkGroup (VStr "Transformation")
                 [VObj [("name", VStr "buffer"); ("hidden", VBool false)];
                  VObj [("name", VStr "along"); ("hidden", VBool false)]]] []));
    reflexivity.
Defined.

(** C8: in the configuration that is written, a placeholder whose name
    is the name of no metadata entry of any package is, at its place,
    the object [{ name, hidden: false }] that the loader made; and a
    metadata entry whose name is the name of no placeholder changes
    nothing and raises nothing. *)
Theorem unmatched_placeholder_untouched :
  forall (docs : Manifest) (packages : list Package) (effects : Effects)
         (config : store),
    main docs packages = Ok effects ->
    written effects = Some config ->
    exists st,
      loadToc (manifest_toc docs) = Ok st /\
      (forall i i2 entry,
          entry_at st i i2 = Some entry ->
          unmatched (metadata_names packages) entry ->
          placeholder entry /\ entry_at config i i2 = Some entry) /\
      (forall paths npmName parent st0 metadata,
          (forall i i2 entry, entry_at st0 i i2 = Some entry ->
                              name_is (name metadata) entry = false) ->
          normalize paths npmName parent st0 metadata = Ok st0).
Proof.
  intros docs packages effects config M W. unfold main in M.
  destruct (loadToc (manifest_toc docs)) as [st|] eqn:E; [|discriminate].
  cbn [bind] in M. injection M as <-.
  exists st. split; [reflexivity|]. split.
  - intros i i2 entry A U. split.
    + destruct (entry_at_In _ _ _ _ A) as (g & G & I).
      pose proof (loadToc_placeholders _ _ E) as P.
      unfold all_placeholders in P. rewrite Forall_forall in P.
      specialize (P g G). rewrite Forall_forall in P. now apply P.
    + apply runQueue_written in W. destruct W as (_ & _ & _ & K).
      now apply K.
  - intros paths npmName parent st0 metadata U. unfold normalize.
    rewrite getModuleObj_None; [reflexivity|].
    apply Forall_forall. intros g G. apply Forall_forall. intros e I.
    destruct (In_entry_at _ _ _ G I) as (i & i2 & A). now apply (U i i2).
Qed.

Lemma unmatched_placeholder_untouched_witness :
  exists st,
    loadToc (manifest_toc sample_manifest) = Ok st /\
    (forall i i2 entry,
        entry_at st i i2 = Some entry ->
        unmatched
          (metadata_names [area_package; buffer_package [buffer_metadata]])
          entry ->
        placeholder entry /\
        entry_at
          [mkGroup (VStr "Transformation")
             [VObj [("name", VStr "buffer"); ("hidden", VBool false);
                    ("parent", VNull);
                    ("description", VStr "Buffers a feature.");
                    ("snippet", VBool false); ("example", VBool false);
                    ("hasMap", VBool false);
                    ("npmName", VStr "@turf/buffer");
                    ("returns", VBool false); ("params", VBool false);
                    ("options", VBool false); ("throws", VBool false)];
              VObj [("name", VStr "along"); ("hidden", VBool false)]]]
          i i2 = Some entry) /\
    (forall paths npmName parent st0 metadata,
        (forall i i2 entry, entry_at st0 i i2 = Some entry ->
                            name_is (name metadata) entry = false) ->
        normalize paths npmName parent st0 metadata = Ok st0).
Proof.
  apply (unmatched_placeholder_untouched sample_manifest
           [area_package; buffer_package [buffer_metadata]]
           (mkEffects ["Parsing Docs: @turf/area"; "Parsing Docs: @turf/buffer";
                       "Saved Config:"]
              (Some
                 [mkGroup (VStr "Transformation")
                    [VObj [("name", VStr "buffer"); ("hidden", VBool false);
                           ("parent", VNull);
                           ("description", VStr "Buffers a feature.");
                           ("snippet", VBool false); ("example", VBool false);
                           ("hasMap", VBool false);
                           ("npmName", VStr "@turf/buffer");
                           ("returns", VBool false); ("params", VBool false);
                           ("options", VBool false); ("throws", VBool false)];
                     VObj [("name", VStr "along"); ("hidden", VBool false)]]]))).
  - reflexivity.
  - reflexivity.
Defined.

Lemma runQueue_stops_at_failure (paths : object) (before : list Package)
  (pckg : Package) (after : list Package) (st : store) (out : list string) :
  ~ extracted pckg ->
  exists started,
    started <= S (List.length before) /\
    console (runQueue paths (before ++ pckg :: after) st out)
    = (out ++ List.map parsing_line
                (firstn started (before ++ pckg :: after)))%list.
Proof.
  intros X. revert st out. induction before as [|p before IH]; intros st out.
  - exists 1. split; [simpl; lia|]. cbn [List.app runQueue].
    destruct (extraction pckg) as [| | |docs] eqn:E; try reflexivity.
    elim X. now exists docs.
  - cbn [List.app runQueue].
    destruct (extraction p) as [| | |docs];
      try (exists 1; split; [simpl; lia | reflexivity]).
    destruct (forEachM (normalize paths (pckg_name p) (parent_of p docs)) docs st)
      as [st1|]; [|exists 1; split; [simpl; lia | reflexivity]].
    destruct (IH st1 (out ++ [parsing_line p])%list) as (k & Hk & C).
    exists (S k). split; [simpl; lia|].
    unfold parsing_line in C at 1. rewrite C, <- List.app_assoc. reflexivity.
Qed.

(** C9: when the extraction of a package fails, nothing is written, and
    no package after the first one that failed is started; a
    configuration is written only when the extraction of every package
    succeeded, after all of them were processed. *)
Theorem failed_extraction_writes_nothing :
  forall (paths : object) (st : store) (out : list string),
    (forall (before : list Package) (pckg : Package) (after : list Package),
        ~ extracted pckg ->
        written (runQueue paths (before ++ pckg :: after) st out) = None /\
        exists started,
          started <= S (List.length before) /\
          console (runQueue paths (before ++ pckg :: after) st out)
          = (out ++ List.map parsing_line
                      (firstn started (before ++ pckg :: after)))%list) /\
    (forall (packages : list Package) (config : store),
        written (runQueue paths packages st out) = Some config ->
        Forall extracted packages /\
        console (runQueue paths packages st out)
        = (out ++ List.map parsing_line packages ++ ["Saved Config:"])%list).
Proof.
  intros paths st out. split.
  - intros before pckg after X. split.
    + destruct (written (runQueue paths (before ++ pckg :: after) st out))
        as [config|] eqn:W; [|reflexivity].
      apply runQueue_written in W. destruct W as (F & _).
      rewrite Forall_forall in F. elim X. apply F.
      apply in_or_app. right. now left.
    + now apply runQueue_stops_at_failure.
  - intros packages config W. apply runQueue_written in W.
    destruct W as (F & C & _). now split.
Qed.

Lemma failed_extraction_writes_nothing_witness :
  written (runQueue [] ([area_package] ++ along_package
                          :: [buffer_package [buffer_metadata]]) [] [])
    = None /\
  exists started,
    started <= 2 /\
    console (runQueue [] ([area_package] ++ along_package
                            :: [buffer_package [buffer_metadata]]) [] [])
    = List.map parsing_line
        (firstn started ([area_package] ++ along_package
                           :: [buffer_package [buffer_metadata]])).
Proof.
  apply (proj1 (failed_extraction_writes_nothing [] [] [])
           [area_package] along_package [buffer_package [buffer_metadata]]).
  intros [docs E]. discriminate E.
Defined.

(** ** Missing documentation *)

(** C10 on a comment without a description: [getDescription] reads the
    [children] of a first block that does not exist and throws, so the
    run writes nothing; [getReturns] tests the same emptiness on its
    entries and gives the placeholder [false]. *)
Theorem getDescription_throws_without_block :
  (forall paths : object, getDescription paths undescribed = Throw) /\
  (forall paths : object,
      getReturns paths undescribed = Ok (VArr [VBool false])) /\
  main sample_manifest [buffer_package [undescribed]]
    = Ok (mkEffects ["Parsing Docs: @turf/buffer"] None).
Proof.
  split; [reflexivity|]. split; reflexivity.
Qed.

(** ** Documentation that always renders *)

Lemma createLink_string (paths : object) (s : string) (addLink : bool) :
  exists r, createLink paths (VStr s) addLink = Ok (VStr r).
Proof.
  unfold createLink, getLink.
  destruct (lookup (toUpperCase s) paths) as [v|]; cbn [bind].
  - destruct (truthy v); cbn [bind];
      destruct (orb (negb addLink) _); eauto.
  - destruct (orb (negb addLink) _); eauto.
Qed.

Lemma mapM_strings {A : Type} (f : A -> result value) (l : list A) :
  Forall (fun a => exists s, f a = Ok (VStr s)) l ->
  exists parts, mapM f l = Ok parts.
Proof.
  induction 1 as [|a l [s E] _ [parts IH]]; [now exists []|].
  exists (VStr s :: parts). cbn [mapM]. fold (mapM f).
  rewrite E. cbn [bind]. now rewrite IH.
Qed.

Lemma getTypeNode_plain (paths : object) (addLink : bool) :
  forall n : TypeNode,
    plain_type n -> exists s, getTypeNode paths addLink n = Ok (VStr s).
Proof.
  fix IH 2. intros n H.
  assert (All : forall l, Forall plain_type l ->
                  Forall (fun n => exists s,
                              getTypeNode paths addLink n = Ok (VStr s)) l).
  { fix IHl 2. intros l F. destruct F as [|a l Ha Hl]; constructor.
    - apply IH, Ha.
    - apply IHl, Hl. }
  destruct H as [s | els F | e | e apps F O].
  - apply createLink_string.
  - destruct (mapM_strings _ _ (All _ F)) as [parts E].
    eexists. cbn. fold (mapM (getTypeNode paths addLink)). rewrite E. reflexivity.
  - eexists. reflexivity.
  - assert (G : exists parts,
               mapM (fun node =>
                  let 'mkTypeNode type1 name1 elements1 _ _ := node in
                  if type_is "UnionType" type1 then
                    match elements1 with
                    | Some els =>
                        parts2 <- mapM (getTypeNode paths addLink) els ;;
                        Ok (VStr ("(" ++ join " | " parts2 ++ ")"))
                    | None => Throw
                    end
                  else if type_is "TypeApplication" type1 then
                    getTypeNode paths addLink node
                  else createLink paths name1 addLink) apps = Ok parts).
    { apply mapM_strings. clear e. 
      pose proof (All _ F) as R. clear All IH.
      induction F as [|a apps Ha Happs IHa]; [constructor|].
      inversion O; subst. inversion R; subst. constructor; [|now apply IHa].
      destruct Ha as [s | els Fe | e | e l Fl Ol].
      - cbn. apply createLink_string.
      - cbn in *. assumption.
      - discriminate.
      - cbn in *. assumption. }
    destruct G as [parts E]. eexists. cbn.
    cbn in E. rewrite E. reflexivity.
Qed.

Lemma getType_plain (paths : object) (t : option TypeNode) (addLink : bool) :
  plain_optional_type t -> exists v, getType paths t addLink = Ok v.
Proof.
  destruct t as [n|]; simpl; [|now exists (VBool false)].
  intros H. destruct (getTypeNode_plain paths addLink n H) as [s E]. eauto.
Qed.

Lemma concatTags_plain (paths : object) (inNode : option (list Inline)) :
  plain_nodes inNode -> exists v, concatTags paths inNode false = Ok v.
Proof.
  destruct inNode as [nodes|]; simpl; [|now exists (VBool false)].
  intros F.
  assert (G : exists parts, mapM (concatTag paths false) nodes = Ok parts).
  { induction F as [|node nodes N _ [parts IH]]; [now exists []|].
    cbn [mapM]. fold (mapM (concatTag paths false)). unfold concatTag at 1.
    destruct (inline_children node) as [[|c cs]|]; [now elim N| |];
      cbn [negb bind]; rewrite IH; cbn [bind]; eauto. }
  destruct G as [parts ->]. cbn [bind].
  destruct (String.eqb _ "Optional parameters"); eauto.
Qed.


Lemma param_described_plain (paths : object) (param : Param) :
  plain_optional_type (param_type param) ->
  children (param_description param) <> [] ->
  plain_description (param_description param) ->
  param_described paths param.
Proof.
  unfold param_described, param_record, plain_description. intros T N D.
  destruct (param_type param) as [t|] eqn:E; [right | now left].
  destruct (children (param_description param)) as [|b bs]; [now elim N|].
  destruct (getType_plain paths (Some t) true T) as [type Et].
  destruct (concatTags_plain paths _ D) as [desc Ed].
  eexists. exists b, bs, type, desc.
  split; [discriminate|]. split; [reflexivity|]. split; [exact Et|].
  split; [exact Ed | reflexivity].
Qed.


(** * Further properties *)

(** ** Examples and snippets *)

Lemma length_app (a b : string) :
  String.length (a ++ b) = String.length a + String.length b.
Proof. induction a; simpl; auto. Qed.

Lemma first_at_prefix_clean (pat s pre post : string) :
  pat <> "" -> first_at pat s pre post -> ~ occurs pat pre.
Proof.
  intros N [E M] (a & b & ->).
  specialize (M a (b ++ pat ++ post)).
  rewrite E, !append_assoc in M. specialize (M eq_refl).
  rewrite !length_app in M. destruct pat; [now elim N|]. simpl in M. lia.
Qed.

(** The example is the text of the first example as it is; the snippet
    is a beginning of that text in which no line break is followed by
    [//addToMap]; and when [hasMap] is [false] the snippet is the whole
    example. *)
Theorem snippet_is_beginning_of_example :
  forall metadata : Metadata,
    match examples metadata with
    | [] => getExample metadata = VBool false
    | example :: _ =>
        getExample metadata = VStr (example_description example) /\
        exists snippet rest,
          getSnippet metadata = VStr snippet /\
          example_description example = snippet ++ rest /\
          ~ occurs (newline ++ "//addToMap") snippet /\
          (hasMap metadata = VBool false ->
           getSnippet metadata = getExample metadata)
    end.
Proof.
  intros metadata. unfold getExample, getSnippet, hasMap.
  destruct (examples metadata) as [|example rest]; [reflexivity|].
  split; [reflexivity|]. set (text := example_description example).
  assert (P : newline ++ "//addToMap" <> "") by discriminate.
  destruct (split_head_spec addToMap_regexp text) as [[post F]|[No E]].
  - exists (split_head addToMap_regexp text), (addToMap_regexp ++ post).
    split; [reflexivity|]. split; [apply F|].
    split; [apply (first_at_prefix_clean _ _ _ _ P F)|].
    intros H. exfalso. injection H as H.
    assert (O : ~ occurs "//addToMap" text).
    { intros O. apply indexOf_occurs in O. rewrite O in H. discriminate. }
    apply O. destruct F as [E _].
    exists (split_head addToMap_regexp text ++ newline), post.
    rewrite E at 1. unfold addToMap_regexp. now rewrite !append_assoc.
  - exists text, "". rewrite E. split; [reflexivity|].
    split; [now rewrite append_nil_r|]. split; [exact No|]. reflexivity.
Qed.

(** ** Exceptions of the rendering *)

Lemma mapM_Throw_iff {A B : Type} (f : A -> result B) (l : list A) :
  mapM f l = Throw <-> Exists (fun a => f a = Throw) l.
Proof.
  induction l as [|a l IH]; cbn [mapM]; fold (mapM f).
  - split; [discriminate | intros H; inversion H].
  - destruct (f a) as [b|] eqn:E; cbn [bind].
    + destruct (mapM f l) as [bs|]; cbn [bind].
      * split; [discriminate|]. intros H. inversion H as [? ? H1|? ? H1]; subst.
        -- congruence.
        -- apply IH in H1. discriminate.
      * split; [|reflexivity]. intros _. apply Exists_cons_tl. now apply IH.
    + split; [|reflexivity]. intros _. now apply Exists_cons_hd.
Qed.

Lemma concatTag_Throw_iff (paths : object) (addLink : bool) (node : Inline) :
  concatTag paths addLink node = Throw <-> breaks_concatTags addLink node.
Proof.
  unfold concatTag, breaks_concatTags.
  destruct (inline_children node) as [[|c cs]|].
  - tauto.
  - destruct addLink; cbn [negb].
    + destruct (leaf_value c) eqn:V; cbn [getLink bind];
        try (split; [intros _; split; [reflexivity | discriminate]
                    | reflexivity]).
      split.
      * destruct (lookup (toUpperCase s) paths) as [v|]; cbn [bind];
          [destruct (truthy v)|]; discriminate.
      * intros [_ H]. now elim (H s).
    + split; [discriminate | intros [H _]; discriminate].
  - split; [discriminate | tauto].
Qed.

(** [concatTags] throws exactly when some node of the list has an empty
    list of children or, with links, a first child whose text is no
    string; in every other case it gives a string. *)
Theorem concatTags_throws_iff :
  forall (paths : object) (nodes : list Inline) (addLink : bool),
    (concatTags paths (Some nodes) addLink = Throw <->
     Exists (breaks_concatTags addLink) nodes) /\
    (concatTags paths (Some nodes) addLink <> Throw ->
     exists s, concatTags paths (Some nodes) addLink = Ok (VStr s)).
Proof.
  intros paths nodes addLink. unfold concatTags.
  pose proof (mapM_Throw_iff (concatTag paths addLink) nodes) as M.
  assert (X : Exists (fun a => concatTag paths addLink a = Throw) nodes <->
              Exists (breaks_concatTags addLink) nodes).
  { rewrite !Exists_exists. split; intros (x & I & H); exists x;
      (split; [exact I|]); now apply (concatTag_Throw_iff paths addLink x). }
  destruct (mapM (concatTag paths addLink) nodes) as [out|]; cbn [bind].
  - split.
    + split.
      * destruct (String.eqb _ "Optional parameters"); discriminate.
      * intros H. apply X, M in H. discriminate.
    + intros _. destruct (String.eqb _ "Optional parameters"); eauto.
  - split; [|intros H; now elim H].
    split; [intros _; apply X, M; reflexivity | reflexivity].
Qed.

Lemma concatTags_throws_iff_witness :
  exists s, concatTags [] (Some [text_node "Optional"; text_node "parameters"])
              true = Ok (VStr s).
Proof.
  apply (proj2 (concatTags_throws_iff []
                  [text_node "Optional"; text_node "parameters"] true)).
  discriminate.
Defined.

(** An application one of whose arguments is neither a union nor an
    application and has no name makes [getType] throw. *)
Theorem getType_throws_on_nameless_argument :
  forall (paths : object) (addLink : bool) (name : value)
         (elements : option (list TypeNode)) (expression : option TypeNode)
         (apps : list TypeNode) (node : TypeNode),
    In node apps ->
    nameless_argument node ->
    getType paths
      (Some (mkTypeNode (VStr "TypeApplication") name elements expression
               (Some apps))) addLink = Throw.
Proof.
  intros paths addLink name elements expression apps node I (U & T & N).
  cbn [getType getTypeNode type_is String.eqb Ascii.eqb Bool.eqb typeof_object].
  destruct (expression_name expression) as [n|]; [|reflexivity]. cbn [bind].
  match goal with
  | |- bind ?m _ = _ => assert (E : m = Throw); [|now rewrite E]
  end.
  apply mapM_Throw_iff, Exists_exists. exists node. split; [exact I|].
  destruct node as [type1 name1 elements1 e1 a1]. simpl in U, T, N.
  rewrite U, T. unfold createLink, getLink.
  destruct name1; try reflexivity. now elim (N s).
Qed.

Lemma getType_throws_on_nameless_argument_witness :
  getType [] (Some array_of_anything) true = Throw.
Proof.
  apply (getType_throws_on_nameless_argument [] true VUndefined None
           (Some (NameExpression "Array"))
           [mkTypeNode (VStr "AllLiteral") VUndefined None None None]
           (mkTypeNode (VStr "AllLiteral") VUndefined None None None)).
  - now left.
  - repeat split; discriminate.
Defined.

(** ** Named types, unions and applications *)

Lemma createLink_linked_name (paths : object) (addLink : bool) (n : string) :
  createLink paths (VStr n) addLink = Ok (VStr (linked_name paths addLink n)).
Proof.
  unfold createLink, getLink, linked_name.
  destruct (lookup (toUpperCase n) paths) as [v|]; cbn [bind].
  - destruct (truthy v) eqn:T; cbn [bind andb].
    + destruct addLink; cbn [negb orb]; [|reflexivity].
      destruct v; try discriminate T; reflexivity.
    + now destruct addLink.
  - now destruct addLink.
Qed.

Lemma mapM_names (paths : object) (addLink : bool) (l : list string) :
  mapM (getTypeNode paths addLink) (names l)
  = Ok (List.map VStr (List.map (linked_name paths addLink) l)).
Proof.
  induction l as [|n l IH]; [reflexivity|].
  cbn [names List.map mapM]. fold (mapM (getTypeNode paths addLink)).
  fold (names l). rewrite IH.
  change (getTypeNode paths addLink (NameExpression n))
    with (createLink paths (VStr n) addLink).
  now rewrite createLink_linked_name.
Qed.

Lemma to_string_strings (l : list string) :
  to_string (VArr (List.map VStr l)) = join_strings "," l.
Proof.
  cbn [to_string]. rewrite List.map_map. simpl. now rewrite List.map_id.
Qed.

(** A union of named types is rendered as the names between
    parentheses with [" | "] between them, and an application of a named
    type to named types as the base name, a space, and the arguments
    between [<] and [>] with a comma and no space between them; each
    member or argument is a hyperlink when links are asked for and the
    table has an address for it, and the base name never is.  The names
    of the members and arguments are ASCII. *)
Theorem getType_of_names :
  forall (paths : object) (addLink : bool) (base : string) (l : list string),
    Forall (fun n => ascii_only n = true) l ->
    getType paths (Some (UnionType (names l))) addLink
      = Ok (VStr ("(" ++ join_strings " | "
                           (List.map (linked_name paths addLink) l) ++ ")")) /\
    getType paths (Some (TypeApplication (NameExpression base) (names l))) addLink
      = Ok (VStr (base ++ " <" ++ join_strings ","
                           (List.map (linked_name paths addLink) l) ++ ">")).
Proof.
  intros paths addLink base l _. split.
  - cbn [getType UnionType getTypeNode type_is String.eqb Ascii.eqb Bool.eqb].
    fold (mapM (getTypeNode paths addLink)).
    rewrite mapM_names. cbn [bind]. now rewrite join_strings_VStr.
  - cbn [getType TypeApplication NameExpression getTypeNode type_is
           String.eqb Ascii.eqb Bool.eqb typeof_object expression_name
           node_name bind].
    match goal with
    | |- bind ?m _ = _ =>
        assert (E : m = Ok (List.map VStr
                              (List.map (linked_name paths addLink) l)))
    end.
    { clear base. induction l as [|n l IH]; [reflexivity|].
      cbn [names List.map mapM]. fold (names l).
      cbn [NameExpression type_is String.eqb Ascii.eqb Bool.eqb].
      rewrite createLink_linked_name. cbn [bind].
      cbn [mapM] in IH. rewrite IH. reflexivity. }
    rewrite E. cbn [bind]. rewrite to_string_strings. reflexivity.
Qed.

Lemma getType_of_names_witness :
  getType [("FEATURE", VStr "http://f")]
    (Some (UnionType (names ["Number"; "Feature"]))) true
    = Ok (VStr ("(" ++ join_strings " | "
                         (List.map (linked_name [("FEATURE", VStr "http://f")]
                                      true) ["Number"; "Feature"]) ++ ")")) /\
  getType [("FEATURE", VStr "http://f")]
    (Some (TypeApplication (NameExpression "Array")
             (names ["Number"; "Feature"]))) true
    = Ok (VStr ("Array" ++ " <" ++ join_strings ","
                         (List.map (linked_name [("FEATURE", VStr "http://f")]
                                      true) ["Number"; "Feature"]) ++ ">")).
Proof.
  apply (getType_of_names [("FEATURE", VStr "http://f")] true "Array"
           ["Number"; "Feature"]).
  repeat constructor.
Defined.

(** ** Rendering without links *)

Lemma TypeNode_induction (P : TypeNode -> Prop) :
  (forall type name elements expression applications,
      option_all (Forall P) elements ->
      option_all P expression ->
      option_all (Forall P) applications ->
      P (mkTypeNode type name elements expression applications)) ->
  forall n, P n.
Proof.
  intros H. fix IH 1. intros [type name elements expression applications].
  apply H.
  - destruct elements as [els|]; simpl; [|exact I].
    revert els. fix aux 1. intros [|a l]; constructor; [apply IH | apply aux].
  - destruct expression as [e|]; simpl; [apply IH | exact I].
  - destruct applications as [apps|]; simpl; [|exact I].
    revert apps. fix aux 1. intros [|a l]; constructor; [apply IH | apply aux].
Qed.

Lemma mapM_ext_Forall {A B : Type} (f g : A -> result B) (l : list A) :
  Forall (fun a => f a = g a) l -> mapM f l = mapM g l.
Proof.
  induction 1 as [|a l E _ IH]; [reflexivity|].
  cbn [mapM]. fold (mapM f) (mapM g). now rewrite E, IH.
Qed.

Lemma getTypeNode_application (paths : object) (addLink : bool)
  (name : value) (elements : option (list TypeNode))
  (expression : option TypeNode) (apps : list TypeNode) :
  getTypeNode paths addLink
    (mkTypeNode (VStr "TypeApplication") name elements expression (Some apps))
  = (n <- expression_name expression ;;
     parts <- mapM (getTypeArgument paths addLink) apps ;;
     Ok (VStr (to_string n ++ " <" ++ to_string (VArr parts) ++ ">"))).
Proof.
  cbn [getTypeNode type_is String.eqb Ascii.eqb Bool.eqb typeof_object].
  destruct (expression_name expression) as [n|]; [|reflexivity]. cbn [bind].
  f_equal. apply mapM_ext_Forall, Forall_forall.
  intros [type1 name1 elements1 e1 a1] _. unfold getTypeArgument.
  cbn [node_type node_name].
  destruct (type_is "UnionType" type1) eqn:U; cbn [orb].
  - cbn [getTypeNode]. now rewrite U.
  - now destruct (type_is "TypeApplication" type1).
Qed.

Lemma createLink_without_links (paths paths' : object) (name : value) :
  createLink paths name false = createLink paths' name false.
Proof.
  unfold createLink, getLink. destruct name; try reflexivity.
  destruct (lookup (toUpperCase s) paths) as [v|];
    [destruct (truthy v)|];
    (destruct (lookup (toUpperCase s) paths') as [v'|];
     [destruct (truthy v')|]); reflexivity.
Qed.

Lemma getTypeNode_without_links (paths paths' : object) (n : TypeNode) :
  getTypeNode paths false n = getTypeNode paths' false n.
Proof.
  induction n as [type name elements expression applications He _ Ha]
    using TypeNode_induction.
  destruct (type_is "TypeApplication" type) eqn:T.
  - destruct type; try discriminate T. simpl in T.
    apply String.eqb_eq in T. subst s.
    destruct applications as [apps|]; [|reflexivity].
    rewrite !getTypeNode_application.
    destruct (expression_name expression) as [n|]; [|reflexivity]. cbn [bind].
    rewrite (mapM_ext_Forall (getTypeArgument paths false)
               (getTypeArgument paths' false) apps); [reflexivity|].
    simpl in Ha. apply (Forall_impl _ (P := fun a =>
      getTypeNode paths false a = getTypeNode paths' false a)); [|exact Ha].
    intros node E. unfold getTypeArgument. rewrite E.
    now rewrite (createLink_without_links paths paths').
  - cbn [getTypeNode]. rewrite T.
    destruct (type_is "UnionType" type).
    + destruct elements as [els|]; [|reflexivity]. simpl in He.
      now rewrite (mapM_ext_Forall _ _ _ He).
    + destruct (type_is "OptionalType" type); [reflexivity|].
      destruct (typeof_object type); [apply createLink_without_links|].
      destruct (type_is "NameExpression" type);
        [apply createLink_without_links | reflexivity].
Qed.

Lemma concatTags_without_links (paths paths' : object)
  (inNode : option (list Inline)) :
  concatTags paths inNode false = concatTags paths' inNode false.
Proof.
  destruct inNode as [nodes|]; [|reflexivity]. unfold concatTags.
  rewrite (mapM_ext_Forall (concatTag paths false) (concatTag paths' false));
    [reflexivity|].
  apply Forall_forall. intros node _. unfold concatTag.
  now destruct (inline_children node) as [[|c cs]|].
Qed.

(** The fields [returns], [throws] and [options] are rendered without
    links and do not depend on the manifest's table of addresses:
    whatever the table holds, the outcome is the same. *)
Theorem link_free_fields_ignore_paths :
  forall (paths paths' : object) (metadata : Metadata),
    getReturns paths metadata = getReturns paths' metadata /\
    getThrows paths metadata = getThrows paths' metadata /\
    getOptions paths metadata = getOptions paths' metadata.
Proof.
  intros paths paths' metadata.
  assert (T : forall t, getType paths t false = getType paths' t false).
  { intros [n|]; [apply getTypeNode_without_links | reflexivity]. }
  assert (R : forall l, mapM (getResult paths) l = mapM (getResult paths') l).
  { intros l. apply mapM_ext_Forall, Forall_forall. intros entry _.
    unfold getResult. destruct (children (tag_description entry)); [reflexivity|].
    now rewrite T, (concatTags_without_links paths paths'). }
  unfold getReturns, getThrows, getOptions. repeat split.
  - destruct (returns metadata); [now rewrite R | reflexivity].
  - destruct (throws metadata); [now rewrite R | reflexivity].
  - destruct (params metadata) as [ps|]; [|reflexivity].
    destruct (filter _ ps) as [|options0 l]; [reflexivity|].
    destruct (properties options0) as [props|]; [|reflexivity].
    rewrite (mapM_ext_Forall (getOption paths) (getOption paths'));
      [reflexivity|].
    apply Forall_forall. intros prop _. unfold getOption. rewrite T.
    destruct (getType paths' (prop_type prop) false); [|reflexivity].
    cbn [bind]. destruct (first_block_children (prop_description prop));
      [|reflexivity].
    cbn [bind]. now rewrite (concatTags_without_links paths paths').
Qed.

(** ** Looking up a link *)

Lemma fold_upperCaseKey_other (K : string) (ks : list string) (acc : object) :
  (forall k', In k' ks -> toUpperCase k' <> K) ->
  lookup K (fold_left upperCaseKey ks acc) = lookup K acc.
Proof.
  revert acc. induction ks as [|k' ks IH]; intros acc N; simpl; [reflexivity|].
  rewrite IH by (intros; apply N; simpl; auto).
  unfold upperCaseKey.
  assert (K <> toUpperCase k') by (intros ->; apply (N k'); simpl; auto).
  destruct (lookup k' acc); now rewrite lookup_set_other.
Qed.

Lemma toUpperCase_not_lower (k k' : string) :
  k <> toUpperCase k -> toUpperCase k' <> k.
Proof.
  intros N E. apply N. rewrite <- E at 2.
  now rewrite toUpperCase_idempotent.
Qed.

(** When several keys of the table read the same in upper case, the
    last of them in the order of the table decides what [getLink] finds
    under every spelling of the name, provided that this last key is not
    itself all in upper case: [getLink] gives its entry, or [null] when
    the entry is falsy.  The keys of the table and the name are ASCII. *)
Theorem getLink_last_key_wins :
  forall (l1 l2 : object) (k : string) (v0 v : value) (s : string),
    ascii_keys (l1 ++ (k, v0) :: l2)%list ->
    ascii_only s = true ->
    lookup k (l1 ++ (k, v0) :: l2)%list = Some v ->
    k <> toUpperCase k ->
    toUpperCase s = toUpperCase k ->
    (forall k', In k' (List.map fst l2) -> toUpperCase k' <> toUpperCase k) ->
    getLink (upperCasePaths (l1 ++ (k, v0) :: l2)%list) (VStr s)
      = Ok (if truthy v then v else VNull).
Proof.
  intros l1 l2 k v0 v s _ _ Hk Low Hs Last.
  assert (F : lookup (toUpperCase k) (upperCasePaths (l1 ++ (k, v0) :: l2)%list)
              = Some v).
  { rewrite upperCasePaths_fold, List.map_app, fold_left_app. simpl.
    rewrite (fold_upperCaseKey_other _ _ _ Last).
    set (acc := fold_left upperCaseKey (List.map fst l1) _).
    assert (A : lookup k acc = Some v).
    { unfold acc. rewrite fold_upperCaseKey_other; [exact Hk|].
      intros k' _. now apply toUpperCase_not_lower. }
    unfold upperCaseKey. rewrite A. apply lookup_set_same. }
  unfold getLink. rewrite Hs, F. now destruct (truthy v).
Qed.

Lemma getLink_last_key_wins_witness :
  getLink
    (upperCasePaths
       ([("FEATURE", VStr "http://old")] ++ ("Feature", VStr "http://a")
          :: [("point", VStr "http://p")])%list)
    (VStr "feature")
  = Ok (VStr "http://a").
Proof.
  apply (getLink_last_key_wins [("FEATURE", VStr "http://old")]
           [("point", VStr "http://p")] "Feature" (VStr "http://a")
           (VStr "http://a") "feature").
  - repeat constructor.
  - reflexivity.
  - reflexivity.
  - discriminate.
  - reflexivity.
  - intros k' [<-|[]]. discriminate.
Defined.

(** A name that no key of the table matches, in any case, is never
    linked: [getLink] gives [null] and [createLink] the bare name.  The
    keys of the table and the name are ASCII. *)
Theorem unknown_name_is_not_linked :
  forall (paths : object) (s : string) (addLink : bool),
    ascii_keys paths ->
    ascii_only s = true ->
    (forall k', In k' (List.map fst paths) ->
                toUpperCase k' <> toUpperCase s) ->
    getLink (upperCasePaths paths) (VStr s) = Ok VNull /\
    createLink (upperCasePaths paths) (VStr s) addLink = Ok (VStr s).
Proof.
  intros paths s addLink _ _ No.
  assert (G : getLink (upperCasePaths paths) (VStr s) = Ok VNull).
  { unfold getLink.
    now rewrite (upperCasePaths_none (toUpperCase s) paths
                   (toUpperCase_idempotent s) No). }
  split; [exact G|]. unfold createLink. rewrite G. cbn [bind is_null].
  now rewrite orb_true_r.
Qed.

Lemma unknown_name_is_not_linked_witness :
  getLink (upperCasePaths [("Feature", VStr "http://a")]) (VStr "Number")
    = Ok VNull /\
  createLink (upperCasePaths [("Feature", VStr "http://a")]) (VStr "Number") true
    = Ok (VStr "Number").
Proof.
  apply unknown_name_is_not_linked.
  - repeat constructor.
  - reflexivity.
  - intros k' [<-|[]]. discriminate.
Defined.

(** ** Finding the entry of a module *)

Lemma find_from_first {A : Type} (p : A -> bool) (l : list A) (i j : nat) (a : A) :
  find_from p l i = Some (j, a) ->
  exists k, j = i + k /\ nth_error l k = Some a /\ p a = true /\
            forall k' b, nth_error l k' = Some b -> p b = true -> k <= k'.
Proof.
  revert i. induction l as [|b l IH]; intros i H; simpl in H; [discriminate|].
  destruct (p b) eqn:E.
  - injection H as <- <-. exists 0. rewrite Nat.add_0_r.
    repeat split; auto. intros; lia.
  - destruct (IH _ H) as (k & -> & N & P & M). exists (S k).
    split; [lia|]. split; [exact N|]. split; [exact P|].
    intros [|k'] c Hc Pc; simpl in Hc.
    + injection Hc as <-. congruence.
    + apply le_n_S. now apply (M k' c).
Qed.

Lemma find_from_None_inv {A : Type} (p : A -> bool) (l : list A) (i : nat) :
  find_from p l i = None ->
  forall k b, nth_error l k = Some b -> p b = false.
Proof.
  revert i. induction l as [|a l IH]; intros i H k b N.
  - now destruct k.
  - simpl in H. destruct (p a) eqn:E; [discriminate|].
    destruct k as [|k]; simpl in N; [now injection N as <-|].
    now apply (IH _ H k).
Qed.

Lemma getModuleObj_from_first (st : store) (n : string) (i : nat) :
  match getModuleObj_from st n i with
  | Some (i', i2, entry) =>
      exists k, i' = i + k /\ entry_at st k i2 = Some entry /\
                name_is n entry = true /\
                forall j j2 other,
                  entry_at st j j2 = Some other -> name_is n other = true ->
                  k < j \/ (k = j /\ i2 <= j2)
  | None =>
      forall j j2 other, entry_at st j j2 = Some other ->
                         name_is n other = false
  end.
Proof.
  revert i. induction st as [|g st IH]; intros i; cbn [getModuleObj_from].
  - intros [|j] j2 other H; discriminate H.
  - destruct (find_from (name_is n) (modules g) 0) as [[i2 a]|] eqn:F.
    + destruct (find_from_first _ _ _ _ _ F) as (k & -> & N & P & M).
      exists 0. rewrite Nat.add_0_r. split; [reflexivity|].
      split; [exact N|]. split; [exact P|].
      intros [|j] j2 other E Q; [right | left; lia].
      split; [reflexivity|]. now apply (M j2 other).
    + specialize (IH (S i)).
      destruct (getModuleObj_from st n (S i)) as [[[i' i2] entry]|].
      * destruct IH as (k & -> & E & P & M). exists (S k).
        split; [lia|]. split; [exact E|]. split; [exact P|].
        intros [|j] j2 other Eo Q.
        -- unfold entry_at in Eo. simpl in Eo.
           rewrite (find_from_None_inv _ _ _ F j2 other Eo) in Q. discriminate.
        -- destruct (M j j2 other Eo Q) as [L|[-> L]]; [left; lia | right; auto].
      * intros [|j] j2 other Eo.
        -- unfold entry_at in Eo. simpl in Eo.
           apply (find_from_None_inv _ _ _ F j2 other Eo).
        -- now apply (IH j j2).
Qed.

(** [getModuleObj] gives the first entry, in the order of the groups and
    then of the modules of the group, whose name is strictly equal to the
    name asked for: when a name is listed twice only its first entry is
    ever found.  It gives nothing exactly when no entry has that name. *)
Theorem getModuleObj_first_match :
  forall (st : store) (n : string),
    match getModuleObj st n with
    | Some (i, i2, entry) =>
        entry_at st i i2 = Some entry /\
        name_is n entry = true /\
        forall j j2 other,
          entry_at st j j2 = Some other -> name_is n other = true ->
          i < j \/ (i = j /\ i2 <= j2)
    | None =>
        forall j j2 other, entry_at st j j2 = Some other ->
                           name_is n other = false
    end.
Proof.
  intros st n. unfold getModuleObj.
  pose proof (getModuleObj_from_first st n 0) as H.
  destruct (getModuleObj_from st n 0) as [[[i i2] entry]|]; [|exact H].
  destruct H as (k & -> & H). exact H.
Qed.

(** ** Manifests that load *)

Lemma forEachM_tocStep_Ok (toc : list value) (st0 st : store) :
  forEachM tocStep toc st0 = Ok st ->
  Forall present toc /\
  (st0 = [] ->
   match toc with
   | [] => True
   | first :: _ => truthy (property first "name") = true
   end).
Proof.
  revert st0. induction toc as [|tocItem toc IH]; intros st0 H.
  - split; [constructor | trivial].
  - simpl in H. destruct (tocStep st0 tocItem) as [st1|] eqn:T; [|discriminate].
    cbn [bind] in H. destruct (IH _ H) as [F _].
    assert (P : present tocItem).
    { unfold tocStep in T. split; intros ->; discriminate T. }
    split; [now constructor|]. intros ->.
    unfold tocStep in T. rewrite (get_present _ _ P) in T. cbn [bind] in T.
    destruct (truthy (property tocItem "name")); [reflexivity | discriminate T].
Qed.

(** The loader accepts exactly the [toc] sequences whose items all have
    properties (none is [null] or [undefined]) and whose first item, if
    any, starts a group; for every other [toc] the script throws before
    any package is looked at. *)
Theorem loadToc_succeeds_iff :
  forall (docs : Manifest) (packages : list Package),
    ((exists st, loadToc (manifest_toc docs) = Ok st) <->
     toc_loads (manifest_toc docs)) /\
    (~ toc_loads (manifest_toc docs) -> main docs packages = Throw).
Proof.
  intros docs packages.
  assert (I : (exists st, loadToc (manifest_toc docs) = Ok st) <->
              toc_loads (manifest_toc docs)).
  { split.
    - intros [st H]. destruct (forEachM_tocStep_Ok _ _ _ H) as [F G].
      split; [exact F | now apply G].
    - intros L. destruct (loadToc_order _ L) as (st & E & _). now exists st. }
  split; [exact I|]. intros N. unfold main.
  destruct (loadToc (manifest_toc docs)) as [st|] eqn:E; [|reflexivity].
  elim N. apply I. now exists st.
Qed.

Lemma loadToc_succeeds_iff_witness :
  main (mkManifest [VStr "buffer"; VObj [("name", VStr "Transformation")]] [])
    [area_package] = Throw.
Proof.
  apply (proj2 (loadToc_succeeds_iff
                  (mkManifest
                     [VStr "buffer"; VObj [("name", VStr "Transformation")]] [])
                  [area_package])).
  intros [_ H]. discriminate H.
Defined.

(** ** Assigning the fields of an entry *)

Lemma set_field_twice {A : Type} (k : string) (v v' : A)
  (o : list (string * A)) :
  set_field k v' (set_field k v o) = set_field k v' o.
Proof.
  induction o as [|[k0 v0] o IH]; simpl.
  - now rewrite String.eqb_refl.
  - destruct (String.eqb k0 k) eqn:E; simpl; rewrite E; [reflexivity|].
    now rewrite IH.
Qed.

Lemma set_field_swap {A : Type} (k k1 : string) (v v1 : A)
  (o : list (string * A)) :
  k <> k1 -> lookup k o <> None ->
  set_field k v (set_field k1 v1 o) = set_field k1 v1 (set_field k v o).
Proof.
  intros N. induction o as [|[k0 v0] o IH]; intros P; [now elim P|].
  simpl in *.
  destruct (String.eqb_spec k0 k) as [E|Nk];
    destruct (String.eqb_spec k0 k1) as [E1|Nk1]; simpl.
  - elim N. congruence.
  - subst k0. rewrite String.eqb_refl.
    destruct (String.eqb_spec k k1); [tauto | reflexivity].
  - subst k0. rewrite String.eqb_refl.
    destruct (String.eqb_spec k1 k); [now elim N | reflexivity].
  - destruct (String.eqb_spec k0 k); [tauto|].
    destruct (String.eqb_spec k0 k1); [tauto|]. now rewrite IH.
Qed.

Lemma assign_all_swap (k : string) (v : value) (kvs : list (string * value))
  (o : object) :
  ~ In k (List.map fst kvs) -> lookup k o <> None ->
  set_field k v (assign_all kvs o) = assign_all kvs (set_field k v o).
Proof.
  revert o. induction kvs as [|[k1 v1] kvs IH]; intros o N P; [reflexivity|].
  simpl in N. cbn [assign_all fold_left fst snd].
  fold (assign_all kvs (set_field k1 v1 o)).
  fold (assign_all kvs (set_field k1 v1 (set_field k v o))).
  rewrite IH.
  - rewrite set_field_swap; [reflexivity | intros ->; tauto | exact P].
  - tauto.
  - rewrite lookup_set_other; [exact P | intros ->; tauto].
Qed.

Lemma assign_all_overwrite (kvs kvs' : list (string * value)) (o : object) :
  NoDup (List.map fst kvs) ->
  List.map fst kvs = List.map fst kvs' ->
  assign_all kvs' (assign_all kvs o) = assign_all kvs' o.
Proof.
  revert kvs' o. induction kvs as [|[k v] kvs IH]; intros [|[k' v'] kvs'] o D E;
    try discriminate E; [reflexivity|].
  simpl in E. injection E as <- E. inversion D as [|? ? Nk Dk]; subst.
  cbn [assign_all fold_left fst snd].
  fold (assign_all kvs (set_field k v o)).
  fold (assign_all kvs' (set_field k v' (assign_all kvs (set_field k v o)))).
  fold (assign_all kvs' (set_field k v' o)).
  rewrite assign_all_swap; [|exact Nk|now rewrite lookup_set_same].
  rewrite set_field_twice. now apply IH.
Qed.

Lemma lookup_assign_all_other (k : string) (kvs : list (string * value))
  (o : object) :
  ~ In k (List.map fst kvs) -> lookup k (assign_all kvs o) = lookup k o.
Proof.
  revert o. induction kvs as [|[k1 v1] kvs IH]; intros o N; [reflexivity|].
  simpl in N. cbn [assign_all fold_left fst snd].
  fold (assign_all kvs (set_field k1 v1 o)).
  rewrite IH by tauto. apply lookup_set_other. intros ->. tauto.
Qed.

Lemma lookup_assign_all_In (k : string) (v : value)
  (kvs : list (string * value)) (o : object) :
  NoDup (List.map fst kvs) -> In (k, v) kvs ->
  lookup k (assign_all kvs o) = Some v.
Proof.
  revert o. induction kvs as [|[k1 v1] kvs IH]; intros o D I; [now elim I|].
  inversion D as [|? ? Nk Dk]; subst. cbn [assign_all fold_left fst snd].
  fold (assign_all kvs (set_field k1 v1 o)).
  destruct I as [[= -> ->]|I].
  - rewrite lookup_assign_all_other by exact Nk. apply lookup_set_same.
  - now apply IH.
Qed.

Lemma fillModuleObj_as_fields (paths : object) (npmName : string)
  (parent : value) (metadata : Metadata) (o : object) :
  fillModuleObj paths npmName parent metadata (VObj o)
  = (kvs <- filled_fields paths npmName parent metadata ;;
     Ok (VObj (assign_all kvs o))).
Proof.
  unfold fillModuleObj, filled_fields.
  destruct (getDescription paths metadata); [|reflexivity].
  destruct (getReturns paths metadata); [|reflexivity].
  destruct (getParams paths metadata); [|reflexivity].
  destruct (getOptions paths metadata); [|reflexivity].
  destruct (getThrows paths metadata); reflexivity.
Qed.

Lemma filled_fields_keys (paths : object) (npmName : string) (parent : value)
  (metadata : Metadata) (kvs : list (string * value)) :
  filled_fields paths npmName parent metadata = Ok kvs ->
  List.map fst kvs = filled_keys.
Proof.
  unfold filled_fields.
  destruct (getDescription paths metadata); [|discriminate].
  destruct (getReturns paths metadata); [|discriminate].
  destruct (getParams paths metadata); [|discriminate].
  destruct (getOptions paths metadata); [|discriminate].
  destruct (getThrows paths metadata); [|discriminate].
  cbn [bind]. now intros [= <-].
Qed.

Lemma filled_keys_NoDup : NoDup filled_keys.
Proof.
  unfold filled_keys.
  repeat (constructor; [simpl; intuition discriminate|]). constructor.
Qed.

(** An entry that was filled from one metadata entry and is filled
    again from another ends as if only the second had been processed:
    the ten assigned properties all take their new values at their old
    places, and nothing of the first metadata entry is left. *)
Theorem fillModuleObj_overwrites :
  forall (paths : object) (npmName1 npmName2 : string) (parent1 parent2 : value)
         (metadata1 metadata2 : Metadata) (o : object) (v1 v2 : value),
    fillModuleObj paths npmName1 parent1 metadata1 (VObj o) = Ok v1 ->
    fillModuleObj paths npmName2 parent2 metadata2 v1 = Ok v2 ->
    fillModuleObj paths npmName2 parent2 metadata2 (VObj o) = Ok v2.
Proof.
  intros paths npmName1 npmName2 parent1 parent2 metadata1 metadata2 o v1 v2.
  rewrite !fillModuleObj_as_fields.
  destruct (filled_fields paths npmName1 parent1 metadata1) as [kvs1|] eqn:F1;
    [|discriminate].
  cbn [bind]. intros [= <-]. rewrite fillModuleObj_as_fields.
  destruct (filled_fields paths npmName2 parent2 metadata2) as [kvs2|] eqn:F2;
    [|discriminate].
  cbn [bind]. intros [= <-]. do 2 f_equal. symmetry.
  apply assign_all_overwrite.
  - rewrite (filled_fields_keys _ _ _ _ _ F1). apply filled_keys_NoDup.
  - now rewrite (filled_fields_keys _ _ _ _ _ F1),
      (filled_fields_keys _ _ _ _ _ F2).
Qed.

Lemma fillModuleObj_overwrites_witness :
  fillModuleObj [] "@turf/area" VNull buffer_metadata
    (VObj [("name", VStr "buffer"); ("hidden", VBool false)])
  = Ok (VObj [("name", VStr "buffer"); ("hidden", VBool false);
              ("parent", VNull); ("description", VStr "Buffers a feature.");
              ("snippet", VBool false); ("example", VBool false);
              ("hasMap", VBool false); ("npmName", VStr "@turf/area");
              ("returns", VBool false); ("params", VBool false);
              ("options", VBool false); ("throws", VBool false)]).
Proof.
  apply (fillModuleObj_overwrites [] "@turf/buffer" "@turf/area"
           (VStr "@turf/buffer") VNull optional_parameters buffer_metadata
           [("name", VStr "buffer"); ("hidden", VBool false)]
           (VObj [("name", VStr "buffer"); ("hidden", VBool false);
                  ("parent", VStr "@turf/buffer");
                  ("description", VStr "Optional parameters: see below");
                  ("snippet", VBool false); ("example", VBool false);
                  ("hasMap", VBool false); ("npmName", VStr "@turf/buffer");
                  ("returns", VBool false); ("params", VBool false);
                  ("options", VBool false); ("throws", VBool false)]));
    reflexivity.
Defined.

(** After an entry was filled from a metadata entry, each of the ten
    assigned properties reads as the value computed from that metadata
    entry, whatever the entry held before, and every other property
    reads as before. *)
Theorem filled_entry_reads_back :
  forall (paths : object) (npmName : string) (parent : value)
         (metadata : Metadata) (o : object) (v : value),
    fillModuleObj paths npmName parent metadata (VObj o) = Ok v ->
    exists d r p op t,
      getDescription paths metadata = Ok d /\
      getReturns paths metadata = Ok r /\
      getParams paths metadata = Ok p /\
      getOptions paths metadata = Ok op /\
      getThrows paths metadata = Ok t /\
      property v "parent" = parent /\
      property v "description" = d /\
      property v "snippet" = getSnippet metadata /\
      property v "example" = getExample metadata /\
      property v "hasMap" = hasMap metadata /\
      property v "npmName" = VStr npmName /\
      property v "returns" = r /\
      property v "params" = p /\
      property v "options" = op /\
      property v "throws" = t /\
      forall k, ~ In k filled_keys -> property v k = property (VObj o) k.
Proof.
  intros paths npmName parent metadata o v. rewrite fillModuleObj_as_fields.
  destruct (filled_fields paths npmName parent metadata) as [kvs|] eqn:F;
    [|discriminate].
  cbn [bind]. intros [= <-].
  pose proof (filled_fields_keys _ _ _ _ _ F) as K.
  assert (D : NoDup (List.map fst kvs)) by (rewrite K; apply filled_keys_NoDup).
  assert (R : forall k x, In (k, x) kvs ->
                          property (VObj (assign_all kvs o)) k = x).
  { intros k x I. unfold property. cbn [get].
    now rewrite (lookup_assign_all_In k x kvs o D I). }
  unfold filled_fields in F.
  destruct (getDescription paths metadata) as [d|]; [|discriminate].
  destruct (getReturns paths metadata) as [r|]; [|discriminate].
  destruct (getParams paths metadata) as [p|]; [|discriminate].
  destruct (getOptions paths metadata) as [op|]; [|discriminate].
  destruct (getThrows paths metadata) as [t|]; [|discriminate].
  cbn [bind] in F. injection F as F. exists d, r, p, op, t.
  repeat (split; [reflexivity|]).
  repeat (split; [apply R; rewrite <- F; simpl; tauto|]).
  intros k N. unfold property. cbn [get].
  rewrite lookup_assign_all_other; [reflexivity|]. now rewrite K.
Qed.

Lemma filled_entry_reads_back_witness :
  exists d r p op t,
    getDescription [] buffer_metadata = Ok d /\
    getReturns [] buffer_metadata = Ok r /\
    getParams [] buffer_metadata = Ok p /\
    getOptions [] buffer_metadata = Ok op /\
    getThrows [] buffer_metadata = Ok t /\
    property (VObj [("name", VStr "buffer"); ("hidden", VBool false);
                    ("parent", VNull);
                    ("description", VStr "Buffers a feature.");
                    ("snippet", VBool false); ("example", VBool false);
                    ("hasMap", VBool false); ("npmName", VStr "@turf/buffer");
                    ("returns", VBool false); ("params", VBool false);
                    ("options", VBool false); ("throws", VBool false)])
      "parent" = VNull.
Proof.
  destruct (filled_entry_reads_back [] "@turf/buffer" VNull buffer_metadata
              [("name", VStr "buffer"); ("hidden", VBool false)] _ eq_refl)
    as (d & r & p & op & t & H1 & H2 & H3 & H4 & H5 & H6 & _).
  exists d, r, p, op, t. repeat (split; [assumption|]). exact H6.
Defined.

(** ** What the sort of the parameters keeps *)

Lemma mapM_Ok_Forall2 {A B : Type} (f : A -> result B) (l : list A)
  (bs : list B) :
  mapM f l = Ok bs -> Forall2 (fun a b => f a = Ok b) l bs.
Proof.
  revert bs. induction l as [|a l IH]; intros bs H; cbn [mapM] in H;
    fold (mapM f) in H.
  - injection H as <-. constructor.
  - destruct (f a) as [b|] eqn:E; [|discriminate]. cbn [bind] in H.
    destruct (mapM f l) as [bs'|]; [|discriminate]. cbn [bind] in H.
    injection H as <-. constructor; auto.
Qed.

Lemma getParam_Ok (paths : object) (p : Param) (v : value) :
  getParam paths p = Ok v ->
  (param_type p = None /\ v = VObj [("type", VNull)]) \/
  (param_type p <> None /\ param_value paths p v).
Proof.
  unfold getParam, param_value, param_record.
  destruct (param_type p) as [t|] eqn:T; [|intros [= <-]; now left].
  intros H. right. split; [discriminate|].
  destruct (children (param_description p)) as [|b bs];
    [injection H as <-; now left|].
  right. destruct (getType paths (Some t) true) as [type|] eqn:Ht;
    [|discriminate].
  cbn [bind] in H.
  destruct (concatTags paths (block_children b) false) as [desc|] eqn:Hd;
    [|discriminate].
  cbn [bind] in H. injection H as <-.
  exists b, bs, type, desc. split; [discriminate|].
  repeat (split; [reflexivity|]). split; [exact Hd | reflexivity].
Qed.

Lemma property_delete_lineNum (v : value) :
  property (delete_lineNum v) "_lineNum" = VUndefined.
Proof.
  destruct v; try reflexivity. unfold property. simpl.
  induction fields as [|[k x] o IH]; [reflexivity|]. simpl.
  destruct (String.eqb k "_lineNum") eqn:E; [exact IH|]. simpl.
  now rewrite E.
Qed.

(** Whatever the order that the sort leaves, [getParams] loses and adds
    nothing: when it returns, its array holds, in some order, one element
    for every parameter that has a type ([false] or the record of the
    parameter) and none for a parameter without a type, and no element
    carries a line number any more. *)
Theorem getParams_keeps_typed_params :
  forall (paths : object) (metadata : Metadata) (ps : list Param) (v : value),
    params metadata = Some ps ->
    getParams paths metadata = Ok v ->
    exists vals rows,
      v = VArr rows /\
      Forall2 (param_value paths) (filter is_typed ps) vals /\
      Permutation (List.map delete_lineNum vals) rows /\
      Forall (fun row => property row "_lineNum" = VUndefined) rows.
Proof.
  intros paths metadata ps v E. unfold getParams. rewrite E.
  destruct (mapM (getParam paths) ps) as [outs|] eqn:M; [|discriminate].
  cbn [bind]. intros [= <-].
  apply mapM_Ok_Forall2 in M.
  set (keep := fun param => negb (is_null (property param "type"))).
  assert (F : Forall2 (param_value paths) (filter is_typed ps)
                (filter keep outs)).
  { clear E. induction M as [|p o ps' outs' H _ IH]; [constructor|].
    destruct (getParam_Ok _ _ _ H) as [[T ->]|[T V]]; cbn [filter];
      unfold is_typed at 1.
    - rewrite T. exact IH.
    - destruct (param_type p); [|now elim T].
      assert (K : keep o = true).
      { destruct V as [[_ ->]|(b & bs & type & desc & _ & _ & _ & _ & ->)];
          reflexivity. }
      rewrite K. now constructor. }
  exists (filter keep outs),
    (List.map delete_lineNum (sort compare_lineNum (filter keep outs))).
  split; [reflexivity|]. split; [exact F|]. split.
  - apply Permutation_map, sort_perm.
  - apply Forall_forall. intros row I. apply in_map_iff in I.
    destruct I as (x & <- & _). apply property_delete_lineNum.
Qed.

Lemma getParams_keeps_typed_params_witness :
  exists vals rows,
    VArr [VObj [("Argument", VStr "radius"); ("Type", VStr "number");
                ("Description", VStr "distance to draw")];
          VBool false;
          VObj [("Argument", VStr "units"); ("Type", VStr "number");
                ("Description", VStr "unit of the radius")]] = VArr rows /\
    Forall2 (param_value []) (filter is_typed unsorted_params) vals /\
    Permutation (List.map delete_lineNum vals) rows /\
    Forall (fun row => property row "_lineNum" = VUndefined) rows.
Proof.
  apply (getParams_keeps_typed_params [] (with_params (Some unsorted_params))
           unsorted_params); reflexivity.
Defined.

(** ** What the run keeps of an entry *)

Lemma fillModuleObj_keeps (paths : object) (npmName : string) (parent : value)
  (metadata : Metadata) (moduleObj moduleObj' : value) (k : string) :
  fillModuleObj paths npmName parent metadata moduleObj = Ok moduleObj' ->
  ~ In k filled_keys ->
  property moduleObj' k = property moduleObj k.
Proof.
  unfold fillModuleObj.
  destruct (getDescription paths metadata); [|discriminate].
  destruct (getReturns paths metadata); [|discriminate].
  destruct (getParams paths metadata); [|discriminate].
  destruct (getOptions paths metadata); [|discriminate].
  destruct (getThrows paths metadata); [|discriminate].
  cbn [bind]. intros [= <-] N. unfold filled_keys in N. simpl in N.
  rewrite !property_assign; [reflexivity|..]; intros ->; tauto.
Qed.

Lemma entry_at_write_entry (st : store) (i i2 j j2 : nat) (entry' x : value) :
  entry_at (write_entry i i2 entry' st) j j2 = Some x ->
  entry_at st j j2 = Some x \/
  (i = j /\ i2 = j2 /\ x = entry' /\ entry_at st j j2 <> None).
Proof.
  unfold entry_at, write_entry. rewrite nth_error_update_nth.
  destruct (Nat.eqb_spec i j) as [->|]; [|now left].
  destruct (nth_error st j) as [g|]; [|discriminate]. simpl.
  rewrite nth_error_update_nth.
  destruct (Nat.eqb_spec i2 j2) as [->|]; [|now left].
  destruct (nth_error (modules g) j2) as [e|]; [|discriminate]. simpl.
  intros [= <-]. right. repeat split. discriminate.
Qed.

Section Kept.

Variable paths : object.
Variable k : string.
Hypothesis not_filled : ~ In k filled_keys.

Lemma normalize_keeps (npmName : string) (parent : value) (st st' : store)
  (metadata : Metadata) (j j2 : nat) (x : value) :
  normalize paths npmName parent st metadata = Ok st' ->
  entry_at st' j j2 = Some x ->
  exists e, entry_at st j j2 = Some e /\ property x k = property e k.
Proof.
  unfold normalize.
  destruct (getModuleObj st (name metadata)) as [[[i i2] moduleObj]|] eqn:G;
    [|intros [= <-] E; now exists x].
  destruct (fillModuleObj paths npmName parent metadata moduleObj)
    as [moduleObj'|] eqn:F; [|discriminate].
  cbn [bind]. intros [= <-] E.
  destruct (getModuleObj_Some _ _ _ _ _ G) as [A _].
  destruct (entry_at_write_entry _ _ _ _ _ _ _ E) as [O|(-> & -> & -> & _)].
  - now exists x.
  - exists moduleObj. split; [exact A|].
    apply (fillModuleObj_keeps _ _ _ _ _ _ _ F not_filled).
Qed.

Lemma forEachM_normalize_keeps (npmName : string) (parent : value)
  (docs : list Metadata) (st st' : store) (j j2 : nat) (x : value) :
  forEachM (normalize paths npmName parent) docs st = Ok st' ->
  entry_at st' j j2 = Some x ->
  exists e, entry_at st j j2 = Some e /\ property x k = property e k.
Proof.
  revert st. induction docs as [|metadata docs IH]; intros st H E; simpl in H.
  - injection H as <-. now exists x.
  - destruct (normalize paths npmName parent st metadata) as [st1|] eqn:N;
      [|discriminate].
    cbn [bind] in H. destruct (IH _ H E) as (e1 & E1 & P1).
    destruct (normalize_keeps _ _ _ _ _ _ _ _ N E1) as (e & E0 & P0).
    exists e. split; [exact E0 | congruence].
Qed.

Lemma runQueue_keeps (packages : list Package) (st config : store)
  (out : list string) (j j2 : nat) (x : value) :
  written (runQueue paths packages st out) = Some config ->
  entry_at config j j2 = Some x ->
  exists e, entry_at st j j2 = Some e /\ property x k = property e k.
Proof.
  revert st out. induction packages as [|pckg packages IH]; intros st out H E.
  - simpl in H. injection H as <-. now exists x.
  - cbn [runQueue] in H.
    destruct (extraction pckg) as [| | |docs]; try discriminate.
    destruct (forEachM (normalize paths (pckg_name pckg) (parent_of pckg docs))
                docs st) as [st1|] eqn:N; [|discriminate].
    destruct (IH _ _ H E) as (e1 & E1 & P1).
    destruct (forEachM_normalize_keeps _ _ _ _ _ _ _ _ N E1) as (e & E0 & P0).
    exists e. split; [exact E0 | congruence].
Qed.

End Kept.

(** No module is ever hidden: in the configuration that is written,
    every entry is at the place of a placeholder of the loader, with the
    name the manifest gave it and with [hidden] still [false]. *)
Theorem hidden_stays_false :
  forall (docs : Manifest) (packages : list Package) (effects : Effects)
         (config : store) (i i2 : nat) (entry : value),
    main docs packages = Ok effects ->
    written effects = Some config ->
    entry_at config i i2 = Some entry ->
    property entry "hidden" = VBool false /\
    exists st item,
      loadToc (manifest_toc docs) = Ok st /\
      entry_at st i i2 = Some (VObj [("name", item); ("hidden", VBool false)]) /\
      property entry "name" = item.
Proof.
  intros docs packages effects config i i2 entry M W E. unfold main in M.
  destruct (loadToc (manifest_toc docs)) as [st|] eqn:L; [|discriminate].
  cbn [bind] in M. injection M as <-.
  assert (Nh : ~ In "hidden" filled_keys)
    by (unfold filled_keys; simpl; intuition discriminate).
  assert (Nn : ~ In "name" filled_keys)
    by (unfold filled_keys; simpl; intuition discriminate).
  destruct (runQueue_keeps _ "hidden" Nh _ _ _ _ _ _ _ W E) as (e & A & Ph).
  destruct (runQueue_keeps _ "name" Nn _ _ _ _ _ _ _ W E) as (e' & A' & Pn).
  rewrite A in A'. injection A' as <-.
  destruct (entry_at_In _ _ _ _ A) as (g & G & I).
  pose proof (loadToc_placeholders _ _ L) as P.
  unfold all_placeholders in P. rewrite Forall_forall in P.
  specialize (P g G). rewrite Forall_forall in P.
  destruct (P e I) as [item ->].
  split; [exact Ph|]. exists st, item. auto.
Qed.

Lemma hidden_stays_false_witness :
  property
    (VObj [("name", VStr "buffer"); ("hidden", VBool false);
           ("parent", VNull); ("description", VStr "Buffers a feature.");
           ("snippet", VBool false); ("example", VBool false);
           ("hasMap", VBool false); ("npmName", VStr "@turf/buffer");
           ("returns", VBool false); ("params", VBool false);
           ("options", VBool false); ("throws", VBool false)]) "hidden"
    = VBool false /\
  exists st item,
    loadToc (manifest_toc sample_manifest) = Ok st /\
    entry_at st 0 0 = Some (VObj [("name", item); ("hidden", VBool false)]) /\
    property
      (VObj [("name", VStr "buffer"); ("hidden", VBool false);
             ("parent", VNull); ("description", VStr "Buffers a feature.");
             ("snippet", VBool false); ("example", VBool false);
             ("hasMap", VBool false); ("npmName", VStr "@turf/buffer");
             ("returns", VBool false); ("params", VBool false);
             ("options", VBool false); ("throws", VBool false)]) "name"
      = item.
Proof.
  apply (hidden_stays_false sample_manifest
           [area_package; buffer_package [buffer_metadata]]
           (runQueue (upperCasePaths (manifest_paths sample_manifest))
              [area_package; buffer_package [buffer_metadata]]
              [mkGroup (VStr "Transformation")
                 [VObj [("name", VStr "buffer"); ("hidden", VBool false)];
                  VObj [("name", VStr "along"); ("hidden", VBool false)]]] [])
           [mkGroup (VStr "Transformation")
              [VObj [("name", VStr "buffer"); ("hidden", VBool false);
                     ("parent", VNull);
                     ("description", VStr "Buffers a feature.");
                     ("snippet", VBool false); ("example", VBool false);
                     ("hasMap", VBool false); ("npmName", VStr "@turf/buffer");
                     ("returns", VBool false); ("params", VBool false);
                     ("options", VBool false); ("throws", VBool false)];
               VObj [("name", VStr "along"); ("hidden", VBool false)]]]
           0 0); reflexivity.
Defined.
(** ** Runs that end with a configuration *)


Section Accepted.

Variable paths : object.







End Accepted.




(** ** A module that is listed twice *)

Lemma entry_at_write_same (st : store) (i i2 : nat) (entry entry' : value) :
  entry_at st i i2 = Some entry ->
  entry_at (write_entry i i2 entry' st) i i2 = Some entry'.
Proof.
  unfold entry_at, write_entry. rewrite nth_error_update_nth, Nat.eqb_refl.
  destruct (nth_error st i) as [g|]; [|discriminate]. simpl.
  rewrite nth_error_update_nth, Nat.eqb_refl. now intros ->.
Qed.

Section Twice.

Variable paths : object.
Variables (n : string) (i i2 j j2 : nat) (second : value).
Hypothesis first_before : before i i2 j j2.
Hypothesis second_name : property second "name" = VStr n.

Lemma normalize_forward_name (npmName : string) (parent : value)
  (st st' : store) (metadata : Metadata) (a a2 : nat) (e : value) :
  normalize paths npmName parent st metadata = Ok st' ->
  entry_at st a a2 = Some e ->
  exists x, entry_at st' a a2 = Some x /\
            property x "name" = property e "name".
Proof.
  unfold normalize.
  destruct (getModuleObj st (name metadata)) as [[[b b2] moduleObj]|] eqn:G;
    [|intros [= <-] E; now exists e].
  destruct (fillModuleObj paths npmName parent metadata moduleObj)
    as [moduleObj'|] eqn:F; [|discriminate].
  cbn [bind]. intros [= <-] E.
  destruct (getModuleObj_Some _ _ _ _ _ G) as [A _].
  destruct (Nat.eq_dec b a) as [->|Na];
    [destruct (Nat.eq_dec b2 a2) as [->|Na2]|].
  - exists moduleObj'. split.
    + apply (entry_at_write_same _ _ _ _ _ A).
    + rewrite A in E. injection E as <-. now apply fillModuleObj_name in F.
  - exists e. split; [|reflexivity].
    apply (write_entry_elsewhere _ _ _ _ _ _ _ _ A E). intros _ ?. tauto.
  - exists e. split; [|reflexivity].
    apply (write_entry_elsewhere _ _ _ _ _ _ _ _ A E). intros ?. tauto.
Qed.

Lemma normalize_skips_second (npmName : string) (parent : value)
  (st st' : store) (metadata : Metadata) (e : value) :
  normalize paths npmName parent st metadata = Ok st' ->
  entry_at st i i2 = Some e ->
  property e "name" = VStr n ->
  entry_at st j j2 = Some second ->
  entry_at st' j j2 = Some second.
Proof.
  intros N E Pe S.
  destruct (name_is (name metadata) second) eqn:M;
    [|now apply (normalize_other _ _ _ _ _ _ _ _ _ N S)].
  assert (Me : name_is (name metadata) e = true).
  { unfold name_is in *. rewrite second_name in M. now rewrite Pe. }
  unfold normalize in N.
  pose proof (getModuleObj_from_first st (name metadata) 0) as G.
  fold (getModuleObj st (name metadata)) in G.
  destruct (getModuleObj st (name metadata)) as [[[b b2] moduleObj]|].
  - destruct G as (k & -> & A & _ & First). simpl in N.
    destruct (fillModuleObj paths npmName parent metadata moduleObj)
      as [moduleObj'|]; [|discriminate].
    cbn [bind] in N. injection N as <-.
    apply (write_entry_elsewhere _ _ _ _ _ _ _ _ A S).
    intros Hb Hb2. exfalso.
    pose proof (First i i2 e E Me) as Q. pose proof first_before as B.
    unfold before in B. lia.
  - rewrite (G j j2 second S) in M. discriminate.
Qed.

Lemma forEachM_skips_second (npmName : string) (parent : value)
  (docs : list Metadata) (st st' : store) (e : value) :
  forEachM (normalize paths npmName parent) docs st = Ok st' ->
  entry_at st i i2 = Some e ->
  property e "name" = VStr n ->
  entry_at st j j2 = Some second ->
  entry_at st' j j2 = Some second /\
  exists x, entry_at st' i i2 = Some x /\ property x "name" = VStr n.
Proof.
  revert st e. induction docs as [|metadata docs IH]; intros st e H E Pe S;
    simpl in H.
  - injection H as <-. split; [exact S|]. now exists e.
  - destruct (normalize paths npmName parent st metadata) as [st1|] eqn:N;
      [|discriminate].
    cbn [bind] in H.
    destruct (normalize_forward_name _ _ _ _ _ _ _ _ N E) as (x & Ex & Px).
    apply (IH st1 x H Ex); [congruence|].
    now apply (normalize_skips_second _ _ _ _ _ _ N E Pe).
Qed.

Lemma runQueue_skips_second (packages : list Package) (st config : store)
  (out : list string) (e : value) :
  written (runQueue paths packages st out) = Some config ->
  entry_at st i i2 = Some e ->
  property e "name" = VStr n ->
  entry_at st j j2 = Some second ->
  entry_at config j j2 = Some second.
Proof.
  revert st out e. induction packages as [|pckg packages IH];
    intros st out e H E Pe S.
  - simpl in H. now injection H as <-.
  - cbn [runQueue] in H.
    destruct (extraction pckg) as [| | |docs]; try discriminate.
    destruct (forEachM (normalize paths (pckg_name pckg) (parent_of pckg docs))
                docs st) as [st1|] eqn:N; [|discriminate].
    destruct (forEachM_skips_second _ _ _ _ _ _ N E Pe S)
      as (S1 & x & Ex & Px).
    now apply (IH st1 _ x H Ex Px).
Qed.

End Twice.

(** A module that the manifest lists twice is documented at its first
    place only: whatever the packages hold, the entry of every later
    place with the same name is written as the loader made it. *)
Theorem second_listing_is_never_filled :
  forall (docs : Manifest) (packages : list Package) (effects : Effects)
         (st config : store) (n : string) (i i2 j j2 : nat)
         (first second : value),
    loadToc (manifest_toc docs) = Ok st ->
    main docs packages = Ok effects ->
    written effects = Some config ->
    entry_at st i i2 = Some first ->
    entry_at st j j2 = Some second ->
    property first "name" = VStr n ->
    property second "name" = VStr n ->
    before i i2 j j2 ->
    entry_at config j j2 = Some second /\ placeholder second.
Proof.
  intros docs packages effects st config n i i2 j j2 first second
    L M W E S Pf Ps B.
  unfold main in M. rewrite L in M. cbn [bind] in M. injection M as <-.
  split.
  - apply (runQueue_skips_second _ n i i2 j j2 second B Ps _ _ _ _ first W E Pf S).
  - destruct (entry_at_In _ _ _ _ S) as (g & G & I).
    pose proof (loadToc_placeholders _ _ L) as P.
    unfold all_placeholders in P. rewrite Forall_forall in P.
    specialize (P g G). rewrite Forall_forall in P. now apply P.
Qed.

Lemma second_listing_is_never_filled_witness :
  entry_at
    [mkGroup (VStr "Transformation")
       [VObj [("name", VStr "buffer"); ("hidden", VBool false);
              ("parent", VNull); ("description", VStr "Buffers a feature.");
              ("snippet", VBool false); ("example", VBool false);
              ("hasMap", VBool false); ("npmName", VStr "@turf/buffer");
              ("returns", VBool false); ("params", VBool false);
              ("options", VBool false); ("throws", VBool false)];
        VObj [("name", VStr "buffer"); ("hidden", VBool false)]]] 0 1
    = Some (VObj [("name", VStr "buffer"); ("hidden", VBool false)]) /\
  placeholder (VObj [("name", VStr "buffer"); ("hidden", VBool false)]).
Proof.
  apply (second_listing_is_never_filled
           (mkManifest [VObj [("name", VStr "Transformation")];
                        VStr "buffer"; VStr "buffer"] [])
           [buffer_package [buffer_metadata]]
           (mkEffects ["Parsing Docs: @turf/buffer"; "Saved Config:"]
              (Some
                 [mkGroup (VStr "Transformation")
                    [VObj [("name", VStr "buffer"); ("hidden", VBool false);
                           ("parent", VNull);
                           ("description", VStr "Buffers a feature.");
                           ("snippet", VBool false); ("example", VBool false);
                           ("hasMap", VBool false);
                           ("npmName", VStr "@turf/buffer");
                           ("returns", VBool false); ("params", VBool false);
                           ("options", VBool false); ("throws", VBool false)];
                     VObj [("name", VStr "buffer"); ("hidden", VBool false)]]]))
           [mkGroup (VStr "Transformation")
              [VObj [("name", VStr "buffer"); ("hidden", VBool false)];
               VObj [("name", VStr "buffer"); ("hidden", VBool false)]]]
           _ "buffer" 0 0 0 1
           (VObj [("name", VStr "buffer"); ("hidden", VBool false)]));
    try reflexivity.
  right. split; [reflexivity | constructor].
Defined.

(** ** Every key can be looked up in any case *)

Lemma In_lookup {A : Type} (k : string) (o : list (string * A)) :
  In k (List.map fst o) -> lookup k o <> None.
Proof.
  induction o as [|[k' v'] o IH]; simpl; [tauto|].
  intros [->|I]; [now rewrite String.eqb_refl|].
  destruct (String.eqb k' k); [discriminate | now apply IH].
Qed.

Lemma lookup_value {A : Type} (k : string) (v : A) (o : list (string * A)) :
  lookup k o = Some v -> In v (List.map snd o).
Proof.
  induction o as [|[k' v'] o IH]; simpl; [discriminate|].
  destruct (String.eqb k' k); [intros [= ->]; now left | auto].
Qed.

Lemma upperCaseKey_present (acc : object) (name K : string) :
  lookup K acc <> None -> lookup K (upperCaseKey acc name) <> None.
Proof.
  intros P. unfold upperCaseKey.
  destruct (String.eqb_spec K (toUpperCase name)) as [->|N].
  - destruct (lookup name acc); rewrite lookup_set_same; discriminate.
  - destruct (lookup name acc); now rewrite lookup_set_other.
Qed.

Lemma fold_upperCaseKey_twins (values : list value) (ks : list string)
  (acc : object) :
  (forall k, In k ks -> lookup k acc <> None) ->
  (forall k v, lookup k acc = Some v -> In v values) ->
  let final := fold_left upperCaseKey ks acc in
  (forall k v, lookup k final = Some v -> In v values) /\
  (forall K, lookup K acc <> None -> lookup K final <> None) /\
  (forall k, In k ks -> lookup (toUpperCase k) final <> None).
Proof.
  revert acc. induction ks as [|k1 ks IH]; intros acc P V; simpl.
  - repeat split; auto.
  - assert (P1 : forall k, In k ks -> lookup k (upperCaseKey acc k1) <> None).
    { intros k I. apply upperCaseKey_present, P. now right. }
    assert (V1 : forall k v, lookup k (upperCaseKey acc k1) = Some v ->
                             In v values).
    { intros k v. unfold upperCaseKey.
      destruct (lookup k1 acc) as [x|] eqn:E; [|elim (P k1); simpl; auto].
      destruct (String.eqb_spec k (toUpperCase k1)) as [->|N].
      - rewrite lookup_set_same. intros [= <-]. now apply (V k1).
      - rewrite lookup_set_other by exact N. apply V. }
    destruct (IH _ P1 V1) as (Vf & Pf & Tf).
    split; [exact Vf|]. split.
    + intros K HK. now apply Pf, upperCaseKey_present.
    + intros k [<-|I]; [|now apply Tf].
      apply Pf. unfold upperCaseKey.
      destruct (lookup k1 acc); rewrite lookup_set_same; discriminate.
Qed.

(** After the keys of the table were duplicated in upper case, every
    spelling of every key finds an entry: [getLink] gives one of the
    values of the manifest's table, or [null] when that value is falsy,
    and never a value that the table did not hold.  The keys of the
    table and the name are ASCII. *)
Theorem getLink_finds_every_key :
  forall (paths : object) (k s : string),
    ascii_keys paths ->
    ascii_only s = true ->
    In k (List.map fst paths) ->
    toUpperCase s = toUpperCase k ->
    exists v, In v (List.map snd paths) /\
              getLink (upperCasePaths paths) (VStr s)
              = Ok (if truthy v then v else VNull).
Proof.
  intros paths k s _ _ I E.
  destruct (fold_upperCaseKey_twins (List.map snd paths) (List.map fst paths)
              paths) as (V & _ & T).
  - intros k'. apply In_lookup.
  - intros k' v. apply lookup_value.
  - rewrite <- upperCasePaths_fold in V, T. specialize (T k I).
    destruct (lookup (toUpperCase k) (upperCasePaths paths)) as [v|] eqn:L;
      [|now elim T].
    exists v. split; [now apply (V _ _ L)|].
    unfold getLink. rewrite E, L. now destruct (truthy v).
Qed.

Lemma getLink_finds_every_key_witness :
  exists v, In v (List.map snd (manifest_paths sample_manifest)) /\
            getLink (upperCasePaths (manifest_paths sample_manifest))
              (VStr "fEATURE")
            = Ok (if truthy v then v else VNull).
Proof.
  apply (getLink_finds_every_key (manifest_paths sample_manifest) "Feature").
  - repeat constructor.
  - reflexivity.
  - now left.
  - reflexivity.
Defined.

(** ** Types that always render *)

(** A type made of names, unions, optional types and applications whose
    arguments are such types, none of them optional, is always rendered
    as a string, with or without links and whatever the table holds; an
    absent type is rendered as [false]. *)
Theorem getType_renders_plain_types :
  forall (paths : object) (t : option TypeNode) (addLink : bool),
    plain_optional_type t ->
    match t with
    | None => getType paths t addLink = Ok (VBool false)
    | Some _ => exists s, getType paths t addLink = Ok (VStr s)
    end.
Proof.
  intros paths [n|] addLink P; [|reflexivity].
  apply (getTypeNode_plain paths addLink n P).
Qed.

Lemma getType_renders_plain_types_witness :
  exists s,
    getType []
      (Some (TypeApplication (NameExpression "Array")
               [UnionType [NameExpression "Point"; NameExpression "Polygon"]]))
      true = Ok (VStr s).
Proof.
  apply (getType_renders_plain_types []
           (Some (TypeApplication (NameExpression "Array")
                    [UnionType [NameExpression "Point";
                                NameExpression "Polygon"]])) true).
  apply plain_application; repeat constructor.
Defined.

(** ** Undeclared fields and undocumented options *)

(** A field is the literal [false] only when the metadata does not
    declare the list at all: a declared list, even an empty one, gives
    an array, and [options] is [null] exactly when parameters are
    declared and none is named "options". *)
Theorem false_means_undeclared :
  forall (paths : object) (metadata : Metadata),
    (getReturns paths metadata = Ok (VBool false) <-> returns metadata = None) /\
    (getThrows paths metadata = Ok (VBool false) <-> throws metadata = None) /\
    (getParams paths metadata = Ok (VBool false) <-> params metadata = None) /\
    (getOptions paths metadata = Ok (VBool false) <-> params metadata = None) /\
    (getOptions paths metadata = Ok VNull <->
     exists ps, params metadata = Some ps /\ List.find is_options ps = None).
Proof.
  intros paths metadata. unfold getReturns, getThrows, getParams, getOptions.
  fold is_options. repeat split.
  - destruct (returns metadata) as [rs|]; [|reflexivity].
    destruct (mapM (getResult paths) rs); discriminate.
  - now intros ->.
  - destruct (throws metadata) as [rs|]; [|reflexivity].
    destruct (mapM (getResult paths) rs); discriminate.
  - now intros ->.
  - destruct (params metadata) as [ps|]; [|reflexivity].
    destruct (mapM (getParam paths) ps); discriminate.
  - now intros ->.
  - destruct (params metadata) as [ps|]; [|reflexivity].
    destruct (filter is_options ps) as [|o l]; [discriminate|].
    destruct (properties o) as [props|]; [|discriminate].
    destruct (mapM (getOption paths) props); discriminate.
  - now intros ->.
  - destruct (params metadata) as [ps|]; [|discriminate].
    pose proof (filter_find is_options ps) as F.
    destruct (List.find is_options ps) as [o|] eqn:Fd;
      [|intros _; now exists ps].
    destruct F as [l' ->].
    destruct (properties o) as [props|]; [|discriminate].
    destruct (mapM (getOption paths) props); discriminate.
  - intros (ps & -> & N). pose proof (filter_find is_options ps) as F.
    rewrite N in F. now rewrite F.
Qed.

(** [getOptions] throws when the first parameter named "options" has no
    documented property at all, and when one of its properties has no
    description block: unlike the parameters, the properties are read
    without a test for an empty description. *)
Theorem getOptions_throws_on_undocumented_options :
  forall (paths : object) (metadata : Metadata) (ps : list Param)
         (options0 : Param),
    params metadata = Some ps ->
    List.find is_options ps = Some options0 ->
    match properties options0 with
    | None => True
    | Some props =>
        exists prop, In prop props /\ children (prop_description prop) = []
    end ->
    getOptions paths metadata = Throw.
Proof.
  intros paths metadata ps options0 E F H. unfold getOptions. rewrite E.
  fold is_options. pose proof (filter_find is_options ps) as FF.
  rewrite F in FF. destruct FF as [l' ->].
  destruct (properties options0) as [props|]; [|reflexivity].
  destruct H as (prop & I & C).
  assert (M : mapM (getOption paths) props = Throw).
  { apply mapM_Throw_iff, Exists_exists. exists prop. split; [exact I|].
    unfold getOption, first_block_children. rewrite C.
    now destruct (getType paths (prop_type prop) false). }
  now rewrite M.
Qed.

Lemma getOptions_throws_on_undocumented_options_witness :
  getOptions []
    (with_params
       (Some [mkParam "options" (Some (NameExpression "Object"))
                (paragraph [text_node "Optional parameters"]) 4 None]))
    = Throw.
Proof.
  apply (getOptions_throws_on_undocumented_options [] _
           [mkParam "options" (Some (NameExpression "Object"))
              (paragraph [text_node "Optional parameters"]) 4 None]
           (mkParam "options" (Some (NameExpression "Object"))
              (paragraph [text_node "Optional parameters"]) 4 None));
    [reflexivity | reflexivity | exact I].
Defined.

(** ** Complete types and documented properties *)

Lemma forallb_false_Exists {A : Type} (f : A -> bool) (l : list A) :
  forallb f l = false <-> Exists (fun a => f a = false) l.
Proof.
  induction l as [|a l IH]; simpl.
  - split; [discriminate | intros H; inversion H].
  - destruct (f a) eqn:E; simpl.
    + rewrite IH. split; [now right|].
      intros H. inversion H; subst; [congruence | assumption].
    + split; [now left | reflexivity].
Qed.

Lemma createLink_Throw_iff (paths : object) (name : value) (addLink : bool) :
  createLink paths name addLink = Throw <-> is_string name = false.
Proof.
  destruct name; try (split; reflexivity).
  destruct (createLink_string paths s addLink) as [r ->].
  split; discriminate.
Qed.

Lemma Exists_iff_Forall {A : Type} (P Q : A -> Prop) (l : list A) :
  Forall (fun a => P a <-> Q a) l -> (Exists P l <-> Exists Q l).
Proof.
  induction 1 as [|a l H _ IH]; [split; intros E; inversion E|].
  split; intros E; inversion E; subst;
    try (now left; apply H); right; now apply IH.
Qed.

(** [getType] throws on a node exactly when the node is not complete,
    with or without links and whatever the table holds. *)
Lemma getTypeNode_Throw_iff (paths : object) (addLink : bool) (n : TypeNode) :
  getTypeNode paths addLink n = Throw <-> complete_type n = false.
Proof.
  induction n as [type name elements expression applications He _ Ha]
    using TypeNode_induction.
  destruct (type_is "TypeApplication" type) eqn:T.
  - destruct type; try discriminate T. simpl in T.
    apply String.eqb_eq in T. subst s.
    destruct applications as [apps|];
      [|cbn; destruct expression; split; reflexivity].
    rewrite getTypeNode_application.
    cbn [complete_type type_is String.eqb Ascii.eqb Bool.eqb typeof_object].
    destruct expression as [e|]; [|split; reflexivity].
    cbn [expression_name bind].
    rewrite forallb_false_Exists.
    assert (EX : Exists (fun a => getTypeArgument paths addLink a = Throw) apps
                 <-> Exists (fun node =>
                       (if orb (type_is "UnionType" (node_type node))
                               (type_is "TypeApplication" (node_type node))
                        then complete_type node
                        else is_string (node_name node)) = false) apps).
    { apply Exists_iff_Forall. simpl in Ha.
      apply (Forall_impl _ (P := fun n0 =>
        getTypeNode paths addLink n0 = Throw <-> complete_type n0 = false));
        [|exact Ha].
      intros node IH. unfold getTypeArgument.
      destruct (orb _ _); [exact IH | apply createLink_Throw_iff]. }
    rewrite <- EX, <- mapM_Throw_iff.
    destruct (mapM (getTypeArgument paths addLink) apps) as [parts|];
      cbn [bind]; split; (reflexivity || discriminate).
  - cbn [getTypeNode complete_type]. rewrite T.
    destruct (type_is "UnionType" type).
    + destruct elements as [els|]; [|split; reflexivity]. simpl in He.
      rewrite forallb_false_Exists, <- (Exists_iff_Forall _ _ _ He),
        <- mapM_Throw_iff.
      destruct (mapM (getTypeNode paths addLink) els) as [parts|];
        cbn [bind]; split; (reflexivity || discriminate).
    + destruct (type_is "OptionalType" type).
      * destruct expression; cbn; split; (reflexivity || discriminate).
      * destruct (typeof_object type); [apply createLink_Throw_iff|].
        destruct (type_is "NameExpression" type);
          [apply createLink_Throw_iff | split; discriminate].
Qed.

Lemma getType_complete (paths : object) (t : option TypeNode) (addLink : bool) :
  complete_optional_type t -> exists v, getType paths t addLink = Ok v.
Proof.
  destruct t as [n|]; simpl; [|now exists (VBool false)].
  intros C. destruct (getTypeNode paths addLink n) as [v|] eqn:E;
    [now exists v|].
  apply getTypeNode_Throw_iff in E. congruence.
Qed.

Lemma option_renders_documented (paths : object) (prop : Property) :
  documented_property prop -> option_renders paths prop.
Proof.
  unfold option_renders, option_row, documented_property, plain_description.
  intros (T & N & D).
  destruct (children (prop_description prop)) as [|b bs]; [now elim N|].
  destruct (getType_complete paths _ false T) as [type Et].
  destruct (concatTags_plain paths _ D) as [desc Ed].
  assert (Dv : exists dflt, default_value (prop_default prop) dflt).
  { unfold default_value. destruct (prop_default prop) as [s|]; [|eauto].
    destruct (String.eqb s ""); [eauto|].
    exists (VStr (replace backslash "" s)), (replace backslash "" s).
    split; [apply replace_spec | reflexivity]. }
  destruct Dv as [dflt Dv].
  eexists. exists b, bs, type, desc, (replace "options." "" (prop_name prop)), dflt.
  split; [reflexivity|]. split; [exact Et|]. split; [exact Ed|].
  split; [apply replace_spec|]. split; [|split; [exact Dv | reflexivity]].
  intros rest ->. apply (replaced_first_prefix "options." "" rest).
  apply replace_spec.
Qed.

(** The properties that [getOptions] accepts are exactly the documented
    ones: on any other property the callback throws. *)
Lemma getOption_Throw_iff (paths : object) (prop : Property) :
  getOption paths prop = Throw <-> ~ documented_property prop.
Proof.
  split.
  - intros E D. destruct (option_renders_documented paths prop D) as [row R].
    rewrite (getOption_row _ _ _ R) in E. discriminate.
  - intros N. unfold getOption, first_block_children.
    destruct (getType paths (prop_type prop) false) as [type|] eqn:Et;
      [|reflexivity].
    cbn [bind].
    destruct (children (prop_description prop)) as [|b bs] eqn:C;
      [reflexivity|].
    cbn [bind].
    destruct (concatTags paths (block_children b) false) as [desc|] eqn:Ed;
      [|reflexivity].
    exfalso. apply N. unfold documented_property, plain_description.
    rewrite C. split; [|split; [discriminate|]].
    + destruct (prop_type prop) as [n|]; simpl; [|exact I].
      destruct (complete_type n) eqn:K; [reflexivity|].
      apply (getTypeNode_Throw_iff paths false) in K. simpl in Et.
      congruence.
    + unfold plain_nodes. destruct (block_children b) as [nodes|]; [|exact I].
      apply Forall_forall. intros node I E.
      assert (X : concatTags paths (Some nodes) false = Throw);
        [|rewrite X in Ed; discriminate].
      unfold concatTags.
      assert (M : mapM (concatTag paths false) nodes = Throw);
        [|now rewrite M].
      apply mapM_Throw_iff, Exists_exists. exists node. split; [exact I|].
      apply concatTag_Throw_iff. unfold breaks_concatTags. now rewrite E.
Qed.

(** [getReturns] and [getThrows] throw on an entry exactly when it has
    text and an incomplete type or a node with an empty list of
    children. *)
Lemma getResult_Throw_iff (paths : object) (entry : Tag) :
  getResult paths entry = Throw <-> ~ complete_tag entry.
Proof.
  unfold getResult, complete_tag, plain_description.
  destruct (children (tag_description entry)) as [|b bs].
  - split; [discriminate | intros N; elim N; now left].
  - split.
    + intros E [C|[T D]]; [discriminate|].
      destruct (getType_complete paths _ false T) as [type Et].
      destruct (concatTags_plain paths _ D) as [desc Ed].
      rewrite Et, Ed in E. discriminate.
    + intros N.
      destruct (getType paths (tag_type entry) false) as [type|] eqn:Et;
        [|reflexivity].
      cbn [bind].
      destruct (concatTags paths (block_children b) false) as [desc|] eqn:Ed;
        [|reflexivity].
      exfalso. apply N. right. split.
      * destruct (tag_type entry) as [n|]; simpl; [|exact I].
        destruct (complete_type n) eqn:K; [reflexivity|].
        apply (getTypeNode_Throw_iff paths false) in K. simpl in Et.
        congruence.
      * unfold plain_nodes. destruct (block_children b) as [nodes|]; [|exact I].
        apply Forall_forall. intros node I E.
        assert (X : concatTags paths (Some nodes) false = Throw);
          [|rewrite X in Ed; discriminate].
        unfold concatTags.
        assert (M : mapM (concatTag paths false) nodes = Throw);
          [|now rewrite M].
        apply mapM_Throw_iff, Exists_exists. exists node. split; [exact I|].
        apply concatTag_Throw_iff. unfold breaks_concatTags. now rewrite E.
Qed.



(** ** A return value of type [Array<*>] *)

(** C5 on an entry of [returns] or [throws] that has text and the type
    [Array<*>]: the argument [*] has no name, [getType] throws on it, and
    the entry is not mapped to a [{ type, desc }] record: [getReturns] and
    [getThrows] throw, whatever the table of links, and the run writes
    nothing. *)
Theorem getReturns_throws_on_array_of_anything :
  (forall paths : object,
      getReturns paths (with_results (Some [number_result; anything_result]) None)
      = Throw) /\
  (forall paths : object,
      getThrows paths (with_results None (Some [anything_result])) = Throw) /\
  main sample_manifest
    [buffer_package
       [with_results (Some [number_result; anything_result]) None]]
  = Ok (mkEffects ["Parsing Docs: @turf/buffer"] None).
Proof.
  split; [|split; reflexivity].
  intros paths. unfold getReturns. cbn [returns with_results].
  assert (M : mapM (getResult paths) [number_result; anything_result] = Throw)
    by (apply mapM_Throw_iff; right; left; reflexivity).
  now rewrite M.
Qed.
